(** * EduVision: rarity roller and proximity filter

    A shallow embedding of the two pieces of logic of the EduVision
    single-page application: the weighted rarity picker ([rollRarity],
    [getRarity]) and the geo-proximity ranking ([haversineDistance],
    [loadNearbyQuestions]) in its three variants.

    JavaScript numbers are idealised as real numbers (exact arithmetic);
    [Math.random()] is made an explicit argument of the roller, and the
    question collection read from the store is made an explicit argument of
    the filter. *)

From Stdlib Require Import Reals Lra Lia List String Bool Arith Sorted.
From Stdlib Require Import Permutation ZArith Ascii DecimalString.
Import ListNotations.

Open Scope R_scope.

(** ** The JavaScript built-ins the program uses *)

Module JS.

(** [x <= y] on numbers. *)
Definition leb (x y : R) : bool := if Rle_dec x y then true else false.

(** [Math.atan2(y, x)]: the angle of the point [(x, y)], in [(-PI, PI]]. *)
Definition atan2 (y x : R) : R :=
  if Rlt_dec 0 x then atan (y / x)
  else if Rlt_dec x 0 then
    (if Rle_dec 0 y then atan (y / x) + PI else atan (y / x) - PI)
  else if Rlt_dec 0 y then PI / 2
  else if Rlt_dec y 0 then - (PI / 2)
  else 0.

Section Arrays.
Context {A : Type}.

(** [arr.slice(0, n)] *)
Definition slice0 (n : nat) (arr : list A) : list A := firstn n arr.

(** [arr.sort(comparefn)].  The comparator returns a number, or [None]
    for [NaN], which the sort treats as [0].  The language requires the
    sort to be stable: an element is placed before the first element of
    the already sorted rest that does not compare smaller than it. *)
Variable comparefn : A -> A -> option R.

Definition sortCompare (x y : A) : R :=
  match comparefn x y with
  | Some v => v
  | None => 0
  end.

Fixpoint insert (x : A) (sorted : list A) : list A :=
  match sorted with
  | [] => [x]
  | y :: rest =>
      if leb (sortCompare x y) 0 then x :: y :: rest
      else y :: insert x rest
  end.

Fixpoint sort (arr : list A) : list A :=
  match arr with
  | [] => []
  | x :: rest => insert x (sort rest)
  end.
End Arrays.

End JS.

(** ** Rarity system *)

Module Rarity.

Record RarityTier := {
  id : string;
  label : string;
  points : R;
  color : string;
  bg : string;
  border : string;
  glow : string;
  weight : R;
  icon : string
}.

Definition RARITIES : list RarityTier := [
  {| id := "common"; label := "Common"; points := 10;
     color := "#667085"; bg := "#F4F5F7"; border := "#D0D5DD";
     glow := "none"; weight := 50; icon := "○" |};
  {| id := "uncommon"; label := "Uncommon"; points := 25;
     color := "#2B7A5F"; bg := "#ECFDF3"; border := "#6CE9A6";
     glow := "none"; weight := 30; icon := "◆" |};
  {| id := "rare"; label := "Rare"; points := 50;
     color := "#3A6BE8"; bg := "#EDF2FE"; border := "#93B4FD";
     glow := "0 0 8px rgba(58,107,232,0.3)"; weight := 13; icon := "★" |};
  {| id := "epic"; label := "Epic"; points := 100;
     color := "#9B5DE5"; bg := "#F4EDFB"; border := "#C4A1F0";
     glow := "0 0 12px rgba(155,93,229,0.4)"; weight := 5; icon := "◈" |};
  {| id := "legendary"; label := "Legendary"; points := 250;
     color := "#D4851F"; bg := "#FFF7ED"; border := "#F6C270";
     glow := "0 0 16px rgba(212,133,31,0.5)"; weight := 2; icon := "✦" |}
]%string.

(** [RARITIES.reduce((sum, r) => sum + r.weight, 0)] *)
Definition totalWeight : R :=
  fold_left (fun sum r => sum + weight r) RARITIES 0.

(** The [for (const r of RARITIES)] loop of [rollRarity]: [Some] is a
    [return] from inside the loop, [None] is falling out of the loop. *)
Fixpoint walk (tiers : list RarityTier) (roll : R) : option string :=
  match tiers with
  | [] => None
  | r :: tiers' =>
      let roll := roll - weight r in
      if JS.leb roll 0 then Some (id r) else walk tiers' roll
  end.

(** [rollRarity()], with the value of [Math.random()] as argument. *)
Definition rollRarity (random : R) : string :=
  let roll := random * totalWeight in
  match walk RARITIES roll with
  | Some i => i
  | None => "common"%string
  end.

(** [r.id === id], where the argument may be [undefined] ([None]), as for
    a question stored without a rarity. *)
Definition sameId (r : RarityTier) (i : option string) : bool :=
  match i with
  | Some s => String.eqb (id r) s
  | None => false
  end.

(** [RARITIES.find((r) => r.id === id) || RARITIES[0]]; a result [None]
    stands for [undefined]. *)
Definition getRarity (i : option string) : option RarityTier :=
  match find (fun r => sameId r i) RARITIES with
  | Some r => Some r
  | None => nth_error RARITIES 0
  end.

End Rarity.

(** ** Question documents *)

Module Doc.

(** A question document as the explore tab handles it: the properties a
    published question has in every variant, the [id] and [timestamp] added
    on storing, and the [distance] added by the proximity filter ([None]:
    property absent).  The variant-specific properties (rarity, choices and
    author in the Google sign-in variant, the username in the username
    variant) are copied by the filter like the text properties kept here. *)
Record Question := {
  id : string;
  lat : R;
  lng : R;
  subject : string;
  difficulty : string;
  question : string;
  hint : string;
  learning_objective : string;
  image_analysis : string;
  why_this_image : string;
  thumbnail : string;
  timestamp : R;
  distance : option R
}.

(** [{ ...q, distance: d }] *)
Definition withDistance (q : Question) (d : R) : Question :=
  {| id := id q; lat := lat q; lng := lng q; subject := subject q;
     difficulty := difficulty q; question := question q; hint := hint q;
     learning_objective := learning_objective q;
     image_analysis := image_analysis q;
     why_this_image := why_this_image q; thumbnail := thumbnail q;
     timestamp := timestamp q; distance := Some d |}.

(** [q.distance <= radiusMeters]; a comparison with [undefined] is false. *)
Definition withinRadius (radiusMeters : R) (q : Question) : bool :=
  match distance q with
  | Some d => JS.leb d radiusMeters
  | None => false
  end.

(** [(a, b) => a.distance - b.distance]; [None] is [NaN]. *)
Definition byDistance (a b : Question) : option R :=
  match distance a, distance b with
  | Some x, Some y => Some (x - y)
  | _, _ => None
  end.

End Doc.

(** ** Firestore + Google sign-in variant *)

Module GoogleAuth.

Definition haversineDistance (lat1 lon1 lat2 lon2 : R) : R :=
  let R := 6371000 in
  let toRad := fun d => (d * PI) / 180 in
  let dLat := toRad (lat2 - lat1) in
  let dLon := toRad (lon2 - lon1) in
  let a := sin (dLat / 2) ^ 2
           + cos (toRad lat1) * cos (toRad lat2) * sin (dLon / 2) ^ 2 in
  R * 2 * JS.atan2 (sqrt a) (sqrt (1 - a)).

(** [loadNearbyQuestions(userLat, userLng, radiusMeters)], with the result
    of [loadAllQuestions()] as [allQuestions]. *)
Definition loadNearbyQuestions (allQuestions : list Doc.Question)
    (userLat userLng radiusMeters : R) : list Doc.Question :=
  JS.slice0 30
    (JS.sort Doc.byDistance
       (filter (Doc.withinRadius radiusMeters)
          (map (fun q => Doc.withDistance q
                           (haversineDistance userLat userLng
                                              (Doc.lat q) (Doc.lng q)))
               allQuestions))).

End GoogleAuth.

(** ** Firestore + username variant *)

Module Username.

Definition haversineDistance (lat1 lon1 lat2 lon2 : R) : R :=
  let R := 6371000 in
  let toRad := fun d => (d * PI) / 180 in
  let dLat := toRad (lat2 - lat1) in
  let dLon := toRad (lon2 - lon1) in
  let a := sin (dLat / 2) ^ 2
           + cos (toRad lat1) * cos (toRad lat2) * sin (dLon / 2) ^ 2 in
  R * 2 * JS.atan2 (sqrt a) (sqrt (1 - a)).

Definition loadNearbyQuestions (allQuestions : list Doc.Question)
    (userLat userLng radiusMeters : R) : list Doc.Question :=
  JS.slice0 30
    (JS.sort Doc.byDistance
       (filter (Doc.withinRadius radiusMeters)
          (map (fun q => Doc.withDistance q
                           (haversineDistance userLat userLng
                                              (Doc.lat q) (Doc.lng q)))
               allQuestions))).

End Username.

(** ** localStorage variant *)

Module LocalStorage.

(** An entry of the ["geoq-index"] array written by [publishQuestion],
    with the [distance] the filter adds. *)
Record IndexEntry := {
  id : string;
  lat : R;
  lng : R;
  subject : string;
  difficulty : string;
  timestamp : R;
  distance : option R
}.

(** The [questionData] object stored under the entry's [id]. *)
Record QuestionData := {
  d_lat : R;
  d_lng : R;
  d_subject : string;
  d_difficulty : string;
  d_question : string;
  d_hint : string;
  d_learning_objective : string;
  d_image_analysis : string;
  d_why_this_image : string;
  d_thumbnail : string
}.

(** The two reads of [localStorage] the filter does: the parsed index
    ([None]: the key is absent) and the parsed record of an id ([None]:
    absent, or not parseable). *)
Record Storage := {
  geoq_index : option (list IndexEntry);
  getItem : string -> option QuestionData
}.

Definition haversineDistance (lat1 lon1 lat2 lon2 : R) : R :=
  let R := 6371000 in
  let toRad := fun d => (d * PI) / 180 in
  let dLat := toRad (lat2 - lat1) in
  let dLon := toRad (lon2 - lon1) in
  let a := sin (dLat / 2) ^ 2
           + cos (toRad lat1) * cos (toRad lat2) * sin (dLon / 2) ^ 2 in
  R * 2 * JS.atan2 (sqrt a) (sqrt (1 - a)).

(** [{ ...e, distance: d }] *)
Definition withDistance (e : IndexEntry) (d : R) : IndexEntry :=
  {| id := id e; lat := lat e; lng := lng e; subject := subject e;
     difficulty := difficulty e; timestamp := timestamp e;
     distance := Some d |}.

Definition withinRadius (radiusMeters : R) (e : IndexEntry) : bool :=
  match distance e with
  | Some d => JS.leb d radiusMeters
  | None => false
  end.

Definition byDistance (a b : IndexEntry) : option R :=
  match distance a, distance b with
  | Some x, Some y => Some (x - y)
  | _, _ => None
  end.

(** [{ ...entry, ...JSON.parse(data) }]: the record's properties replace
    the entry's of the same name. *)
Definition merge (entry : IndexEntry) (data : QuestionData) : Doc.Question :=
  {| Doc.id := id entry; Doc.lat := d_lat data; Doc.lng := d_lng data;
     Doc.subject := d_subject data; Doc.difficulty := d_difficulty data;
     Doc.question := d_question data; Doc.hint := d_hint data;
     Doc.learning_objective := d_learning_objective data;
     Doc.image_analysis := d_image_analysis data;
     Doc.why_this_image := d_why_this_image data;
     Doc.thumbnail := d_thumbnail data;
     Doc.timestamp := timestamp entry; Doc.distance := distance entry |}.

(** The [for (const entry of ...)] loop that fills [results]. *)
Fixpoint collect (st : Storage) (entries : list IndexEntry)
    : list Doc.Question :=
  match entries with
  | [] => []
  | entry :: rest =>
      match getItem st (id entry) with
      | Some data => merge entry data :: collect st rest
      | None => collect st rest
      end
  end.

Definition loadNearbyQuestions (st : Storage)
    (userLat userLng radiusMeters : R) : list Doc.Question :=
  let index := match geoq_index st with
               | Some existing => existing
               | None => []
               end in
  let nearby :=
    JS.sort byDistance
      (filter (withinRadius radiusMeters)
         (map (fun e => withDistance e
                          (haversineDistance userLat userLng (lat e) (lng e)))
              index)) in
  collect st (JS.slice0 20 nearby).

End LocalStorage.

(** ** Reference definitions, following the specification's wording *)

Module Reference.

Definition earthRadius : R := 6371000.

Definition radians (degrees : R) : R := degrees * (PI / 180).

(** Haversine great-circle distance between two points given in decimal
    degrees. *)
Definition haversine (lat1 lon1 lat2 lon2 : R) : R :=
  let phi1 := radians lat1 in
  let phi2 := radians lat2 in
  let dlat := radians lat2 - radians lat1 in
  let dlon := radians lon2 - radians lon1 in
  let a := Rsqr (sin (dlat / 2))
           + cos phi1 * cos phi2 * Rsqr (sin (dlon / 2)) in
  2 * earthRadius * JS.atan2 (sqrt a) (sqrt (1 - a)).

(** Number of candidates whose distance from the observer is at most the
    radius. *)
Definition countWithin (observerLat observerLng radius : R)
    (candidates : list Doc.Question) : nat :=
  List.length (filter (fun q => JS.leb (haversine observerLat observerLng
                                             (Doc.lat q) (Doc.lng q)) radius)
                 candidates).

End Reference.

(** ** Vocabulary of the properties *)

Module Props.

(** [x === y] on numbers. *)
Definition eqb (x y : R) : bool := if Req_dec_T x y then true else false.

(** Sum of the weights of a tier list. *)
Definition sumWeights (tiers : list Rarity.RarityTier) : R :=
  fold_left (fun sum r => sum + Rarity.weight r) tiers 0.

(** Sum of the weights of the tiers before position [i] of the table: the
    lower end of the draws that select tier [i]. *)
Definition cumulative (i : nat) : R :=
  sumWeights (firstn i Rarity.RARITIES).

(** The question carries exactly the distance [d]. *)
Definition atDistance (d : R) (q : Doc.Question) : bool :=
  match Doc.distance q with
  | Some x => eqb x d
  | None => false
  end.

(** What identifies a candidate for the filter: its id and position. *)
Definition candidate (q : Doc.Question) : string * R * R :=
  (Doc.id q, Doc.lat q, Doc.lng q).

Definition indexCandidate (e : LocalStorage.IndexEntry) : string * R * R :=
  (LocalStorage.id e, LocalStorage.lat e, LocalStorage.lng e).

(** What the ranking of a result shows: its id and distance. *)
Definition ranked (q : Doc.Question) : string * option R :=
  (Doc.id q, Doc.distance q).

(** A result list is within the radius and ascending, for the distance
    function [dist] of the observer. *)
Definition withinAndSorted (dist : Doc.Question -> R) (radius : R)
    (out : list Doc.Question) : Prop :=
  Forall (fun q => Doc.distance q = Some (dist q) /\ dist q <= radius) out
  /\ StronglySorted (fun a b => dist a <= dist b) out.

(** A question published at the given position. *)
Definition questionAt (i : string) (la lo : R) : Doc.Question :=
  {| Doc.id := i; Doc.lat := la; Doc.lng := lo;
     Doc.subject := "science"; Doc.difficulty := "middle";
     Doc.question := "What is this?"; Doc.hint := "Look closer";
     Doc.learning_objective := "Observation";
     Doc.image_analysis := "A leaf"; Doc.why_this_image := "Veins";
     Doc.thumbnail := "/9j/4AAQ"; Doc.timestamp := 1700000000000;
     Doc.distance := None |}%string.

Definition entryAt (i : string) (la lo : R) : LocalStorage.IndexEntry :=
  {| LocalStorage.id := i; LocalStorage.lat := la; LocalStorage.lng := lo;
     LocalStorage.subject := "science";
     LocalStorage.difficulty := "middle";
     LocalStorage.timestamp := 1700000000000;
     LocalStorage.distance := None |}%string.

Definition dataAt (la lo : R) : LocalStorage.QuestionData :=
  {| LocalStorage.d_lat := la; LocalStorage.d_lng := lo;
     LocalStorage.d_subject := "science";
     LocalStorage.d_difficulty := "middle";
     LocalStorage.d_question := "What is this?";
     LocalStorage.d_hint := "Look closer";
     LocalStorage.d_learning_objective := "Observation";
     LocalStorage.d_image_analysis := "A leaf";
     LocalStorage.d_why_this_image := "Veins";
     LocalStorage.d_thumbnail := "/9j/4AAQ" |}%string.

(** A store holding [n] questions, all published at the origin. *)
Definition crowd (n : nat) : list Doc.Question :=
  repeat (questionAt "q" 0 0) n.

Definition crowdStorage (n : nat) : LocalStorage.Storage :=
  {| LocalStorage.geoq_index := Some (repeat (entryAt "q" 0 0) n);
     LocalStorage.getItem := fun _ => Some (dataAt 0 0) |}.

End Props.

(** ** Vocabulary of the further properties *)

Module Geo.

(** The quantity [a] of [haversineDistance], whose square roots are taken. *)
Definition haversineA (lat1 lon1 lat2 lon2 : R) : R :=
  let toRad := fun d => (d * PI) / 180 in
  let dLat := toRad (lat2 - lat1) in
  let dLon := toRad (lon2 - lon1) in
  sin (dLat / 2) ^ 2
  + cos (toRad lat1) * cos (toRad lat2) * sin (dLon / 2) ^ 2.

(** A latitude in decimal degrees. *)
Definition validLat (lat : R) : Prop := -90 <= lat <= 90.

End Geo.

(** ** localStorage variant: publication *)

Module LocalPublish.

Import LocalStorage.

(** [arr.slice(-n)]: the last [n] elements. *)
Definition sliceLast {A : Type} (n : nat) (arr : list A) : list A :=
  skipn (List.length arr - n) arr.

(** The index entry pushed by [publishQuestion]. *)
Definition indexEntry (i : string) (now : R) (questionData : QuestionData)
    : IndexEntry :=
  {| id := i; lat := d_lat questionData; lng := d_lng questionData;
     subject := d_subject questionData;
     difficulty := d_difficulty questionData;
     timestamp := now; distance := None |}.

(** [publishQuestion(questionData)], with the generated [id] and the value
    of [Date.now()] as arguments; the result is the storage afterwards.
    The generated id starts with ["geoq:"], so the record is never written
    over the index key. *)
Definition publishQuestion (st : Storage) (i : string) (now : R)
    (questionData : QuestionData) : Storage :=
  let index := match geoq_index st with
               | Some existing => existing
               | None => []
               end in
  let index := index ++ [indexEntry i now questionData] in
  let index := if (200 <? List.length index)%nat
               then sliceLast 200 index else index in
  {| geoq_index := Some index;
     getItem := fun key => if String.eqb key i then Some questionData
                           else getItem st key |}.

(** The distance shown for a result ([0] stands in when there is none;
    results of the filter always have one). *)
Definition shownDistance (q : Doc.Question) : R :=
  match Doc.distance q with
  | Some d => d
  | None => 0
  end.

(** The index as the filter reads it. *)
Definition indexOf (st : Storage) : list IndexEntry :=
  match geoq_index st with
  | Some existing => existing
  | None => []
  end.

End LocalPublish.

(** ** Display helpers *)

Module Display.

(** A number with an integer value in a template literal, [`${n}`]: its
    decimal digits, with a minus sign when negative (the form numbers below
    [10^21] take). *)
Definition showInt (n : Z) : string :=
  NilZero.string_of_int (Z.to_int n).

(** [Math.round(x)]: the nearest integer, a half rounding up. *)
Definition round (x : R) : Z := Int_part (x + / 2).

(** [x.toFixed(1)] for [0 <= x]: the nearest multiple [n / 10] of a tenth
    (the larger of two), written with one digit after the point. *)
Definition toFixed1 (x : R) : string :=
  let n := Int_part (10 * x + / 2) in
  (showInt (n / 10) ++ "." ++ showInt (n mod 10))%string.

(** [formatDistance(m)] *)
Definition formatDistance (m : R) : string :=
  if Rlt_dec m 100 then (showInt (round m) ++ "m away")%string
  else if Rlt_dec m 1000
  then (showInt (round (m / 10) * 10) ++ "m away")%string
  else if Rlt_dec m 10000 then (toFixed1 (m / 1000) ++ "km away")%string
  else (showInt (round (m / 1000)) ++ "km away")%string.

(** [timeAgo(ts)], with the value of [Date.now()] as first argument; both
    are whole numbers of milliseconds. *)
Definition timeAgo (now ts : Z) : string :=
  let diff := (now - ts)%Z in
  let mins := (diff / 60000)%Z in
  if (mins <? 1)%Z then "just now"%string
  else if (mins <? 60)%Z then (showInt mins ++ "m ago")%string
  else
    let hrs := (mins / 60)%Z in
    if (hrs <? 24)%Z then (showInt hrs ++ "h ago")%string
    else (showInt (hrs / 24) ++ "d ago")%string.

(** [radiusToZoom(r)] *)
Definition radiusToZoom (r : R) : Z :=
  if Rle_dec r 1000 then 15%Z
  else if Rle_dec r 5000 then 13%Z
  else if Rle_dec r 25000 then 11%Z
  else 9%Z.

(** The radii offered by the explore tab. *)
Definition radiusMenu : list R := [1000; 5000; 25000; 50000].

(** The size given to the canvas by [compressImage] (Google sign-in
    variant) for an image of [width] by [height] pixels:
    [scale = Math.min(maxDim / img.width, maxDim / img.height, 1)], and each
    side is [Math.max(1, Math.round(side * scale))]. *)
Definition canvasSize (width height maxDim : Z) : Z * Z :=
  let scale :=
    Rmin (Rmin (IZR maxDim / IZR width) (IZR maxDim / IZR height)) 1 in
  (Z.max 1 (round (IZR width * scale)),
   Z.max 1 (round (IZR height * scale))).

End Display.

(** ** Username variant: avatar colour and login *)

Module Avatar.

Open Scope Z_scope.

(** A JavaScript string as its sequence of UTF-16 code units. *)
Definition JSString : Type := list Z.

(** The code units of a string of ASCII characters. *)
Definition codeUnits (s : string) : JSString :=
  map (fun a => Z.of_N (N_of_ascii a)) (list_ascii_of_string s).

(** [ToInt32]: an integer wrapped into [[-2^31, 2^31)]. *)
Definition toInt32 (z : Z) : Z := (z + 2 ^ 31) mod 2 ^ 32 - 2 ^ 31.

(** [hash << 5] *)
Definition shiftLeft5 (hash : Z) : Z := toInt32 (Z.shiftl hash 5).

(** The body of the loop: [name.charCodeAt(i) + ((hash << 5) - hash)]. *)
Definition step (hash c : Z) : Z := c + (shiftLeft5 hash - hash).

(** The value of [hash] after the loop. *)
Definition hashOf (name : JSString) : Z := fold_left step name 0.

Definition colors : list string :=
  ["#E8553A"; "#2B7A5F"; "#3A6BE8"; "#9B5DE5"; "#D4851F"; "#E84393";
   "#00B894"; "#6C5CE7"]%string.

(** [avatarColor(name)]; [None] stands for [undefined]. *)
Definition avatarColor (name : JSString) : option string :=
  nth_error colors
    (Z.to_nat (Z.abs (hashOf name) mod Z.of_nat (List.length colors))).

(** The polynomial hash [c0 * 31^(n-1) + ... + c(n-1)]. *)
Definition poly31 (name : JSString) : Z :=
  fold_left (fun h c => 31 * h + c) name 0.

End Avatar.

Module Login.

Open Scope Z_scope.

(** The code units [String.prototype.trim] removes: white space and line
    terminators. *)
Definition whiteSpace : list Z :=
  [9; 10; 11; 12; 13; 32; 160; 5760;
   8192; 8193; 8194; 8195; 8196; 8197; 8198; 8199; 8200; 8201; 8202;
   8232; 8233; 8239; 8287; 12288; 65279].

Definition isWhiteSpace (c : Z) : bool := existsb (Z.eqb c) whiteSpace.

Fixpoint trimStart (s : Avatar.JSString) : Avatar.JSString :=
  match s with
  | [] => []
  | c :: rest => if isWhiteSpace c then trimStart rest else s
  end.

Definition trimEnd (s : Avatar.JSString) : Avatar.JSString :=
  rev (trimStart (rev s)).

(** [s.trim()] *)
Definition trim (s : Avatar.JSString) : Avatar.JSString :=
  trimEnd (trimStart s).

(** A code unit matched by [[a-zA-Z0-9_]]. *)
Definition isWordChar (c : Z) : bool :=
  ((97 <=? c) && (c <=? 122)) || ((65 <=? c) && (c <=? 90))
  || ((48 <=? c) && (c <=? 57)) || (c =? 95).

(** What [handleSubmit] does: it sets an error message, or stores the
    name under ["eduvision-user"] and logs in with it. *)
Inductive Outcome : Type :=
| SetError (message : string)
| LoggedIn (user : Avatar.JSString).

(** [handleSubmit()] of the login screen, for the text of the input. *)
Definition handleSubmit (username : Avatar.JSString) : Outcome :=
  let trimmed := trim username in
  match trimmed with
  | [] => SetError "Please enter a username."
  | _ :: _ =>
      if (List.length trimmed <? 2)%nat
      then SetError "Username must be at least 2 characters."
      else if (20 <? List.length trimmed)%nat
      then SetError "Username must be 20 characters or fewer."
      else if negb (forallb isWordChar trimmed)
      then SetError "Only letters, numbers, and underscores allowed."
      else LoggedIn trimmed
  end.

End Login.

(** ** Google sign-in variant: points *)

Module Points.

(** The points state of [MainApp]: [userPoints] and the set [answeredIds],
    in insertion order. *)
Record State := {
  userPoints : R;
  answeredIds : list string
}.

(** [answeredIds.has(questionId)] *)
Definition has (ids : list string) (questionId : string) : bool :=
  existsb (String.eqb questionId) ids.

(** [new Set([...prev, questionId])] *)
Definition add (prev : list string) (questionId : string) : list string :=
  if has prev questionId then prev else prev ++ [questionId].

(** [awardPoints(questionId, rarity)] on the local state, each call seeing
    the state left by the call before.  The state is updated in the same
    way whether the write to the database succeeds or fails. *)
Definition awardPoints (s : State) (questionId : string)
    (rarity : option string) : State :=
  if has (answeredIds s) questionId then s
  else
    match Rarity.getRarity rarity with
    | Some r =>
        {| userPoints := userPoints s + Rarity.points r;
           answeredIds := add (answeredIds s) questionId |}
    | None => s
    end.

(** The points a question gives for a draw of the roller: the question is
    given [rollRarity()] as rarity, and a correct answer awards
    [getRarity(rarity).points]. *)
Definition rolledPoints (random : R) : option R :=
  option_map Rarity.points
    (Rarity.getRarity (Some (Rarity.rollRarity random))).

(** A run of calls of [awardPoints], one after the other. *)
Definition awardAll (s : State) (calls : list (string * option string))
    : State :=
  fold_left (fun s call => awardPoints s (fst call) (snd call)) calls s.

End Points.

(** * Properties *)

(** ** Comparisons *)

Lemma leb_le (x y : R) : JS.leb x y = true <-> x <= y.
Proof.
  unfold JS.leb. destruct (Rle_dec x y); split; intro H;
    try reflexivity; try assumption; try discriminate; contradiction.
Qed.

Lemma leb_gt (x y : R) : JS.leb x y = false <-> y < x.
Proof.
  unfold JS.leb. destruct (Rle_dec x y); split; intro H;
    try reflexivity; try discriminate; lra.
Qed.

Ltac case_leb :=
  match goal with
  | |- context [JS.leb ?x ?y] =>
      let E := fresh "E" in
      destruct (JS.leb x y) eqn:E;
      [apply leb_le in E | apply leb_gt in E]
  | H : context [JS.leb ?x ?y] |- _ =>
      let E := fresh "E" in
      destruct (JS.leb x y) eqn:E;
      [apply leb_le in E | apply leb_gt in E]
  end.

(** ** Rarity roller *)

Section RarityRoller.
Import Rarity Props.

Lemma fold_weights_shift (tiers : list RarityTier) (a : R) :
  fold_left (fun sum r => sum + weight r) tiers a = a + sumWeights tiers.
Proof.
  unfold sumWeights. revert a.
  induction tiers as [|r tiers IH]; intro a; simpl.
  - lra.
  - rewrite (IH (a + weight r)), (IH (0 + weight r)). lra.
Qed.

Lemma sumWeights_cons (r : RarityTier) (tiers : list RarityTier) :
  sumWeights (r :: tiers) = weight r + sumWeights tiers.
Proof.
  unfold sumWeights at 1. simpl. rewrite fold_weights_shift. lra.
Qed.

Lemma totalWeight_value : totalWeight = 100.
Proof. unfold totalWeight. simpl. lra. Qed.

(** The walk returns from inside the loop whenever the draw does not
    exceed the sum of the weights of a non-empty table without negative
    weights. *)
Lemma walk_returns (tiers : list RarityTier) :
  Forall (fun r => 0 <= weight r) tiers ->
  forall roll, tiers <> [] -> roll <= sumWeights tiers ->
  exists r, In r tiers /\ walk tiers roll = Some (id r).
Proof.
  induction 1 as [|r tiers Hr Hrest IH]; intros roll Hne Hroll.
  - contradiction.
  - rewrite sumWeights_cons in Hroll. simpl. case_leb.
    + exists r. split; [now left | reflexivity].
    + destruct tiers as [|r' tiers'].
      * unfold sumWeights in Hroll. simpl in Hroll. lra.
      * destruct (IH (roll - weight r)) as [t [Hin Ht]];
          [discriminate | lra |].
        exists t. split; [now right | exact Ht].
Qed.

(** The draws above the weights of the tiers before [r], up to the weight of
    [r] more, select [r]. *)
Lemma walk_interval (pre post : list RarityTier) (r : RarityTier) :
  Forall (fun t => 0 <= weight t) pre ->
  forall roll,
    sumWeights pre < roll <= sumWeights pre + weight r ->
    walk (pre ++ r :: post) roll = Some (id r).
Proof.
  induction 1 as [|p pre Hp Hpre IH]; intros roll Hroll.
  - unfold sumWeights in Hroll. simpl in *. case_leb; [reflexivity | lra].
  - rewrite sumWeights_cons in Hroll.
    assert (0 <= sumWeights pre).
    { clear - Hpre. induction Hpre as [|t l Ht Hl IHl].
      - unfold sumWeights. simpl. lra.
      - rewrite sumWeights_cons. lra. }
    simpl. case_leb; [lra |]. apply IH. lra.
Qed.

Lemma RARITIES_weights_nonneg : Forall (fun r => 0 <= weight r) RARITIES.
Proof. repeat constructor; simpl; lra. Qed.

End RarityRoller.

Ltac roll_solve :=
  intros;
  repeat match goal with
         | H : _ /\ _ |- _ => destruct H
         | H : _ \/ _ |- _ => destruct H
         end;
  first [ reflexivity | discriminate | lra
        | left; reflexivity | right; lra | exfalso; lra ].

(** C3. The roller draws [roll = random * totalWeight] in [[0, totalWeight)]
    and walks the table in order, subtracting weights and returning the
    first tier at which the remainder is not positive.  Hence tier [i] is
    returned exactly for the draws in the interval from [cumulative i]
    (excluded, except for the first tier, which also takes the draw [0]) to
    [cumulative i + weight] (included), an interval of length [weight] that
    lies inside [[0, totalWeight]]; under a uniform draw its probability is
    [weight / totalWeight], with weights 50, 30, 13, 5, 2 out of 100. *)
Theorem rollRarity_draw_intervals :
  forall (i : nat) (r : Rarity.RarityTier) (random : R),
    nth_error Rarity.RARITIES i = Some r ->
    0 <= random < 1 ->
    let roll := random * Rarity.totalWeight in
    (Rarity.rollRarity random = Rarity.id r <->
       (i = 0%nat \/ Props.cumulative i < roll) /\
       roll <= Props.cumulative i + Rarity.weight r)
    /\ 0 <= Props.cumulative i
    /\ Props.cumulative i + Rarity.weight r <= Rarity.totalWeight
    /\ 0 <= roll < Rarity.totalWeight
    /\ map Rarity.weight Rarity.RARITIES = [50; 30; 13; 5; 2]
    /\ Rarity.totalWeight = 100.
Proof.
  intros i r random Hnth Hrand roll. subst roll.
  unfold Rarity.rollRarity. rewrite totalWeight_value.
  do 5 (destruct i as [|i];
        [injection Hnth as <-; unfold Props.cumulative, Props.sumWeights; simpl;
         repeat case_leb; repeat split; roll_solve |]).
  destruct i; discriminate.
Qed.

Example rollRarity_draw_0 : Rarity.rollRarity 0 = "common"%string.
Proof.
  unfold Rarity.rollRarity. rewrite totalWeight_value. simpl.
  repeat case_leb; roll_solve.
Qed.

Example rollRarity_draw_top :
  Rarity.rollRarity (1 - 1 / 1000000) = "legendary"%string.
Proof.
  unfold Rarity.rollRarity. rewrite totalWeight_value. simpl.
  repeat case_leb; roll_solve.
Qed.

Lemma rollRarity_draw_intervals_witness :
  0 <= 3 / 5 < 1 /\ Rarity.rollRarity (3 / 5) = "uncommon"%string.
Proof.
  assert (Hrange : 0 <= 3 / 5 < 1) by lra.
  split; [exact Hrange |].
  destruct (rollRarity_draw_intervals 1 _ (3 / 5) eq_refl Hrange)
    as [[_ Hback] _].
  apply Hback. rewrite totalWeight_value.
  unfold Props.cumulative, Props.sumWeights. simpl.
  split; [right |]; lra.
Defined.

(** C4. Whatever the draw, the roller returns an identifier of the
    configured table.  When the draw equals the total weight exactly
    ([random = 1]) the last tier is returned from the loop; when a positive
    remainder is left after the last tier ([random > 1]) the fallback
    ["common"] is returned, which is in the table too. *)
Theorem rollRarity_in_table :
  (forall random : R,
      In (Rarity.rollRarity random) (map Rarity.id Rarity.RARITIES))
  /\ Rarity.rollRarity 1 = "legendary"%string
  /\ (forall random : R,
         1 < random ->
         Rarity.walk Rarity.RARITIES (random * Rarity.totalWeight) = None
         /\ Rarity.rollRarity random = "common"%string).
Proof.
  unfold Rarity.rollRarity. rewrite totalWeight_value.
  split; [| split].
  - intro random. simpl. repeat case_leb; simpl; tauto.
  - simpl. repeat case_leb; roll_solve.
  - intros random Hgt. simpl. repeat case_leb; split; roll_solve.
Qed.

Lemma rollRarity_in_table_witness :
  1 < 2 /\ Rarity.rollRarity 2 = "common"%string.
Proof.
  assert (Hgt : 1 < 2) by lra.
  split; [exact Hgt |].
  destruct rollRarity_in_table as [_ [_ Hfallback]].
  exact (proj2 (Hfallback 2 Hgt)).
Defined.

(** C9. In exact arithmetic the trailing [return "common"] of the roller is
    not reached: for a draw [random] in [[0, 1)] the walk over the
    configured table returns the identifier of one of its tiers from inside
    the loop. *)
Theorem rollRarity_fallback_unreachable :
  forall random : R,
    0 <= random < 1 ->
    exists r : Rarity.RarityTier,
      In r Rarity.RARITIES /\
      Rarity.walk Rarity.RARITIES (random * Rarity.totalWeight)
        = Some (Rarity.id r) /\
      Rarity.rollRarity random = Rarity.id r.
Proof.
  intros random Hrand.
  destruct (walk_returns Rarity.RARITIES RARITIES_weights_nonneg
              (random * Rarity.totalWeight)) as [r [Hin Hwalk]].
  - discriminate.
  - change (Props.sumWeights Rarity.RARITIES) with Rarity.totalWeight.
    rewrite totalWeight_value. lra.
  - exists r. unfold Rarity.rollRarity. rewrite Hwalk. auto.
Qed.

Lemma rollRarity_fallback_unreachable_witness :
  0 <= 99 / 100 < 1 /\
  exists r : Rarity.RarityTier,
    In r Rarity.RARITIES /\
    Rarity.walk Rarity.RARITIES (99 / 100 * Rarity.totalWeight)
      = Some (Rarity.id r).
Proof.
  assert (Hrange : 0 <= 99 / 100 < 1) by lra.
  split; [exact Hrange |].
  destruct (rollRarity_fallback_unreachable (99 / 100) Hrange)
    as [r [Hin [Hwalk _]]].
  exists r. split; assumption.
Defined.

(** C10. Tier lookup is total: for every identifier, also a missing one,
    [getRarity] returns a record of the configured table: the one with that
    identifier when there is one, and otherwise the first record of the
    table, ["common"]. *)
Theorem getRarity_total :
  forall i : option string,
    exists r : Rarity.RarityTier,
      Rarity.getRarity i = Some r /\
      In r Rarity.RARITIES /\
      (forall s, i = Some s -> In s (map Rarity.id Rarity.RARITIES) ->
                 Rarity.id r = s) /\
      ((forall s, i = Some s -> ~ In s (map Rarity.id Rarity.RARITIES)) ->
       nth_error Rarity.RARITIES 0 = Some r /\
       Rarity.id r = "common"%string).
Proof.
  intros [i |]; unfold Rarity.getRarity, Rarity.RARITIES;
    cbn [find Rarity.sameId Rarity.id nth_error].
  - repeat match goal with
           | |- context [String.eqb ?s i] =>
               let E := fresh "E" in
               destruct (String.eqb s i) eqn:E;
               [apply String.eqb_eq in E | apply String.eqb_neq in E]
           end;
      eexists; (split; [reflexivity |]); cbn [In map Rarity.id];
      (split; [tauto |]);
      (split;
       [ intros s Hs; injection Hs as <-; tauto
       | intro H; specialize (H i eq_refl);
         try (split; reflexivity); exfalso; tauto ]).
  - eexists. split; [reflexivity |]. cbn [In map Rarity.id].
    split; [tauto |]. split; [discriminate | split; reflexivity].
Qed.

Lemma getRarity_total_witness :
  (forall s, Some "mythic"%string = Some s ->
             ~ In s (map Rarity.id Rarity.RARITIES)) /\
  exists r : Rarity.RarityTier,
    Rarity.getRarity (Some "mythic"%string) = Some r /\
    Rarity.id r = "common"%string.
Proof.
  assert (Hnot : forall s, Some "mythic"%string = Some s ->
                           ~ In s (map Rarity.id Rarity.RARITIES)).
  { intros s Hs. injection Hs as <-. simpl.
    intros [H | [H | [H | [H | [H | H]]]]];
      first [discriminate H | exact H]. }
  split; [exact Hnot |].
  destruct (getRarity_total (Some "mythic"%string))
    as [r [Hget [_ [_ Hdefault]]]].
  exists r. split; [exact Hget | exact (proj2 (Hdefault Hnot))].
Defined.

(** ** Haversine distance *)

Section Haversine.

Lemma toRad_radians (d : R) : d * PI / 180 = Reference.radians d.
Proof. unfold Reference.radians. field. Qed.

Lemma toRad_diff (x y : R) :
  (y - x) * PI / 180 / 2 = (Reference.radians y - Reference.radians x) / 2.
Proof. unfold Reference.radians. field. Qed.

Lemma haversine_code_reference (lat1 lon1 lat2 lon2 : R) :
  GoogleAuth.haversineDistance lat1 lon1 lat2 lon2
  = Reference.haversine lat1 lon1 lat2 lon2.
Proof.
  unfold GoogleAuth.haversineDistance, Reference.haversine,
    Reference.earthRadius.
  cbv zeta. rewrite !toRad_diff, !toRad_radians, <- !Rsqr_pow2. ring.
Qed.

Lemma atan2_0_1 : JS.atan2 0 1 = 0.
Proof.
  unfold JS.atan2. destruct (Rlt_dec 0 1) as [_ | H]; [| lra].
  replace (0 / 1) with 0 by field. exact atan_0.
Qed.

(** A point is at distance 0 from itself. *)
Lemma haversine_same_point (lat lon : R) :
  GoogleAuth.haversineDistance lat lon lat lon = 0.
Proof.
  unfold GoogleAuth.haversineDistance. cbv zeta.
  replace ((lat - lat) * PI / 180 / 2) with 0 by field.
  replace ((lon - lon) * PI / 180 / 2) with 0 by field.
  rewrite sin_0.
  replace (0 ^ 2 + cos (lat * PI / 180) * cos (lat * PI / 180) * 0 ^ 2)
    with 0 by ring.
  rewrite Rminus_0_r, sqrt_0, sqrt_1, atan2_0_1. ring.
Qed.

End Haversine.

(** C6. For all coordinates in decimal degrees, the distance function of
    each variant equals the haversine reference: with the angles in radians,
    [a = sin²(dlat/2) + cos(lat1)·cos(lat2)·sin²(dlon/2)] and the distance is
    [2·R·atan2(√a, √(1−a))] with [R = 6371000] metres. *)
Theorem haversineDistance_reference :
  forall lat1 lon1 lat2 lon2 : R,
    GoogleAuth.haversineDistance lat1 lon1 lat2 lon2
      = Reference.haversine lat1 lon1 lat2 lon2
    /\ LocalStorage.haversineDistance lat1 lon1 lat2 lon2
      = Reference.haversine lat1 lon1 lat2 lon2
    /\ Username.haversineDistance lat1 lon1 lat2 lon2
      = Reference.haversine lat1 lon1 lat2 lon2.
Proof.
  intros lat1 lon1 lat2 lon2.
  repeat split; exact (haversine_code_reference lat1 lon1 lat2 lon2).
Qed.

(** ** The stable sort, for a comparator that subtracts keys *)

Lemma eqb_eq (x y : R) : Props.eqb x y = true <-> x = y.
Proof.
  unfold Props.eqb. destruct (Req_dec_T x y); split; intro H;
    try reflexivity; try assumption; try discriminate; contradiction.
Qed.

Section SortBasics.
Context {A : Type}.
Variable comparefn : A -> A -> option R.

Lemma insert_In (x y : A) (l : list A) :
  In y (JS.insert comparefn x l) <-> y = x \/ In y l.
Proof.
  induction l as [|z l IH]; simpl.
  - intuition.
  - destruct (JS.leb _ 0); simpl; rewrite ?IH; intuition.
Qed.

Lemma sort_In (y : A) (l : list A) :
  In y (JS.sort comparefn l) <-> In y l.
Proof.
  induction l as [|x l IH]; simpl.
  - tauto.
  - rewrite insert_In, IH. intuition.
Qed.

Lemma sort_Forall (P : A -> Prop) (l : list A) :
  Forall P l -> Forall P (JS.sort comparefn l).
Proof.
  rewrite !Forall_forall. intros H y Hy. apply H, sort_In, Hy.
Qed.

Lemma insert_length (x : A) (l : list A) :
  List.length (JS.insert comparefn x l) = S (List.length l).
Proof.
  induction l as [|z l IH]; simpl; [reflexivity |].
  destruct (JS.leb _ 0); simpl; [reflexivity | now rewrite IH].
Qed.

Lemma sort_length (l : list A) :
  List.length (JS.sort comparefn l) = List.length l.
Proof.
  induction l as [|x l IH]; simpl; [reflexivity |].
  now rewrite insert_length, IH.
Qed.

End SortBasics.

Section SortFacts.
Context {A : Type}.
Variable comparefn : A -> A -> option R.
Variable key : A -> R.
Variable ok : A -> Prop.
Hypothesis comparefn_key :
  forall a b, ok a -> ok b -> JS.sortCompare comparefn a b = key a - key b.

Let le_key (a b : A) : Prop := key a <= key b.
Let tie (d : R) (a : A) : bool := Props.eqb (key a) d.

Lemma insert_sorted (x : A) (l : list A) :
  ok x -> Forall ok l ->
  StronglySorted le_key l -> StronglySorted le_key (JS.insert comparefn x l).
Proof.
  intros Hx Hok Hs. induction Hs as [|z l Hs IH Hz]; simpl.
  - constructor; constructor.
  - inversion Hok as [|? ? Hokz Hokl]; subst.
    rewrite (comparefn_key x z Hx Hokz). case_leb.
    + constructor; [constructor; assumption |].
      constructor; [unfold le_key; lra |].
      rewrite Forall_forall in Hz |- *. intros y Hy.
      specialize (Hz y Hy). unfold le_key in *. lra.
    + constructor; [apply IH; assumption |].
      rewrite Forall_forall in Hz |- *. intros y Hy.
      apply insert_In in Hy. destruct Hy as [-> | Hy].
      * unfold le_key. lra.
      * apply Hz, Hy.
Qed.

Lemma sort_sorted (l : list A) :
  Forall ok l -> StronglySorted le_key (JS.sort comparefn l).
Proof.
  induction 1 as [|x l Hx Hl IH]; simpl.
  - constructor.
  - apply insert_sorted; [assumption | now apply sort_Forall | assumption].
Qed.

Lemma insert_least (x : A) (l : list A) :
  ok x -> Forall ok l -> Forall (le_key x) l ->
  JS.insert comparefn x l = x :: l.
Proof.
  intros Hx Hok Hle. destruct l as [|z l]; simpl; [reflexivity |].
  inversion Hok; inversion Hle; subst.
  rewrite (comparefn_key x z) by assumption.
  case_leb; [reflexivity | unfold le_key in *; lra].
Qed.

(** Sorting a sorted array changes nothing. *)
Lemma sort_sorted_id (l : list A) :
  Forall ok l -> StronglySorted le_key l -> JS.sort comparefn l = l.
Proof.
  intros Hok Hs. induction Hs as [|x l Hs IH Hx]; simpl; [reflexivity |].
  inversion Hok; subst. rewrite IH by assumption.
  now apply insert_least.
Qed.

Lemma filter_tie_insert (d : R) (x : A) (l : list A) :
  ok x -> Forall ok l ->
  filter (tie d) (JS.insert comparefn x l) = filter (tie d) (x :: l).
Proof.
  intros Hx Hok. induction Hok as [|z l Hz Hl IH]; [reflexivity |].
  cbn [JS.insert]. rewrite (comparefn_key x z Hx Hz).
  case_leb; [reflexivity |].
  cbn [filter] in *. rewrite IH.
  destruct (tie d x) eqn:Ex, (tie d z) eqn:Ez; try reflexivity.
  unfold tie in Ex, Ez. apply eqb_eq in Ex, Ez. lra.
Qed.

(** Stability: the elements with one and the same key keep their order. *)
Lemma filter_tie_sort (d : R) (l : list A) :
  Forall ok l ->
  filter (tie d) (JS.sort comparefn l) = filter (tie d) l.
Proof.
  induction 1 as [|x l Hx Hl IH]; [reflexivity |].
  cbn [JS.sort]. rewrite filter_tie_insert by (auto using sort_Forall).
  cbn [filter]. now rewrite IH.
Qed.

(** A sorted array is determined by its elements of each key, in order. *)
Lemma sorted_ties_unique (l1 l2 : list A) :
  StronglySorted le_key l1 -> StronglySorted le_key l2 ->
  (forall d, filter (tie d) l1 = filter (tie d) l2) -> l1 = l2.
Proof.
  assert (Hself : forall a, tie (key a) a = true)
    by (intro a; now apply eqb_eq).
  revert l2. induction l1 as [|x l1 IH]; intros [|y l2] H1 H2 Hf.
  - reflexivity.
  - specialize (Hf (key y)). cbn [filter] in Hf.
    rewrite Hself in Hf. discriminate.
  - specialize (Hf (key x)). cbn [filter] in Hf.
    rewrite Hself in Hf. discriminate.
  - inversion H1 as [|? ? Hs1 Hx]; inversion H2 as [|? ? Hs2 Hy]; subst.
    assert (Hkey : key x = key y).
    { destruct (Rtotal_order (key x) (key y)) as [Hlt | [Heq | Hgt]];
        [exfalso | exact Heq | exfalso].
      - assert (Hin : In x (filter (tie (key x)) (y :: l2))).
        { rewrite <- Hf. cbn [filter]. rewrite Hself. now left. }
        apply filter_In in Hin. destruct Hin as [[<- | Hin] _]; [lra |].
        rewrite Forall_forall in Hy. specialize (Hy x Hin).
        unfold le_key in Hy. lra.
      - assert (Hin : In y (filter (tie (key y)) (x :: l1))).
        { rewrite Hf. cbn [filter]. rewrite Hself. now left. }
        apply filter_In in Hin. destruct Hin as [[<- | Hin] _]; [lra |].
        rewrite Forall_forall in Hx. specialize (Hx y Hin).
        unfold le_key in Hx. lra. }
    assert (Hxy : x = y).
    { specialize (Hf (key x)). cbn [filter] in Hf.
      rewrite Hself in Hf. rewrite Hkey in Hf at 2.
      rewrite Hself in Hf. now injection Hf. }
    subst y. f_equal. apply IH; try assumption.
    intro d. specialize (Hf d). cbn [filter] in Hf.
    destruct (tie d x); [now injection Hf | exact Hf].
Qed.

(** Whatever algorithm the engine uses, an array that is sorted and keeps
    the elements of equal key in their order is the one [JS.sort] gives. *)
Lemma sort_unique (l l' : list A) :
  Forall ok l ->
  StronglySorted le_key l' ->
  (forall d, filter (tie d) l' = filter (tie d) l) ->
  l' = JS.sort comparefn l.
Proof.
  intros Hok Hs Hf. apply sorted_ties_unique.
  - exact Hs.
  - now apply sort_sorted.
  - intro d. now rewrite filter_tie_sort.
Qed.

End SortFacts.

Section ListFacts.
Context {A B : Type}.

Lemma filter_all (p : A -> bool) (l : list A) :
  Forall (fun a => p a = true) l -> filter p l = l.
Proof.
  induction 1 as [|x l Hx Hl IH]; simpl; [reflexivity |].
  now rewrite Hx, IH.
Qed.

Lemma filter_none (p : A -> bool) (l : list A) :
  Forall (fun a => p a = false) l -> filter p l = [].
Proof.
  induction 1 as [|x l Hx Hl IH]; simpl; [reflexivity |].
  now rewrite Hx.
Qed.

Lemma filter_filter_const (p q : A -> bool) (c : bool) (l : list A) :
  (forall a, p a = true -> q a = c) ->
  filter p (filter q l) = if c then filter p l else [].
Proof.
  intro H. induction l as [|x l IH]; simpl; [now destruct c |].
  destruct (p x) eqn:Ep.
  - rewrite (H x Ep). destruct c; simpl; [now rewrite Ep, IH | exact IH].
  - destruct (q x); simpl; [rewrite Ep |]; exact IH.
Qed.

Lemma filter_map_swap (f : A -> B) (p : B -> bool) (l : list A) :
  filter p (map f l) = map f (filter (fun a => p (f a)) l).
Proof.
  induction l as [|x l IH]; simpl; [reflexivity |].
  destruct (p (f x)); simpl; now rewrite IH.
Qed.

Lemma filter_firstn_prefix (p : A -> bool) (n : nat) (l : list A) :
  exists k, filter p (firstn n l) = firstn k (filter p l).
Proof.
  revert l. induction n as [|n IH]; intro l.
  - exists 0%nat. reflexivity.
  - destruct l as [|x l]; [exists 0%nat; reflexivity |].
    destruct (IH l) as [k Hk]. cbn [firstn filter].
    destruct (p x).
    + exists (S k). cbn [firstn]. now rewrite Hk.
    + exists k. exact Hk.
Qed.

Lemma firstn_Forall (P : A -> Prop) (n : nat) (l : list A) :
  Forall P l -> Forall P (firstn n l).
Proof.
  intro H. revert n. induction H as [|x l Hx Hl IH]; intro n.
  - rewrite firstn_nil. constructor.
  - destruct n; simpl; constructor; auto.
Qed.

Lemma firstn_sorted (le : A -> A -> Prop) (n : nat) (l : list A) :
  StronglySorted le l -> StronglySorted le (firstn n l).
Proof.
  intro H. revert n. induction H as [|x l Hs IH Hx]; intro n.
  - rewrite firstn_nil. constructor.
  - destruct n; simpl; constructor; auto using firstn_Forall.
Qed.

Lemma map_insert (f : A -> B) (cA : A -> A -> option R)
    (cB : B -> B -> option R) :
  (forall a b, cA a b = cB (f a) (f b)) ->
  forall x l, map f (JS.insert cA x l) = JS.insert cB (f x) (map f l).
Proof.
  intros Hc x l. induction l as [|z l IH]; simpl; [reflexivity |].
  unfold JS.sortCompare. rewrite Hc.
  destruct (JS.leb _ 0); simpl; [reflexivity | now rewrite IH].
Qed.

Lemma map_sort (f : A -> B) (cA : A -> A -> option R)
    (cB : B -> B -> option R) :
  (forall a b, cA a b = cB (f a) (f b)) ->
  forall l, map f (JS.sort cA l) = JS.sort cB (map f l).
Proof.
  intros Hc l. induction l as [|x l IH]; simpl; [reflexivity |].
  now rewrite (map_insert f cA cB Hc), IH.
Qed.

End ListFacts.

(** ** Proximity filter *)

Section ProximityFilter.
Variables userLat userLng radiusMeters : R.

Let dist (q : Doc.Question) : R :=
  GoogleAuth.haversineDistance userLat userLng (Doc.lat q) (Doc.lng q).
Let score (q : Doc.Question) : Doc.Question := Doc.withDistance q (dist q).
Let scored (q : Doc.Question) : Prop := Doc.distance q = Some (dist q).

Lemma byDistance_dist (a b : Doc.Question) :
  scored a -> scored b ->
  JS.sortCompare Doc.byDistance a b = dist a - dist b.
Proof.
  unfold scored, JS.sortCompare, Doc.byDistance. now intros -> ->.
Qed.

Lemma score_scored (q : Doc.Question) : scored (score q).
Proof. reflexivity. Qed.

Lemma score_fixed (q : Doc.Question) : scored q -> score q = q.
Proof.
  unfold scored, score, Doc.withDistance. destruct q; simpl.
  now intros ->.
Qed.

Lemma withinRadius_scored (q : Doc.Question) :
  scored q ->
  Doc.withinRadius radiusMeters q = JS.leb (dist q) radiusMeters.
Proof. unfold scored, Doc.withinRadius. now intros ->. Qed.

Lemma atDistance_scored (d : R) (q : Doc.Question) :
  scored q -> Props.atDistance d q = Props.eqb (dist q) d.
Proof. unfold scored, Props.atDistance. now intros ->. Qed.

Lemma map_score_scored (qs : list Doc.Question) :
  Forall scored (map score qs).
Proof. apply Forall_forall. intros q Hq. apply in_map_iff in Hq.
       destruct Hq as [q0 [<- _]]. apply score_scored. Qed.

(** The candidates kept by the radius test. *)
Let kept (qs : list Doc.Question) : list Doc.Question :=
  filter (Doc.withinRadius radiusMeters) (map score qs).

Lemma kept_within (qs : list Doc.Question) :
  Forall (fun q => scored q /\ dist q <= radiusMeters) (kept qs).
Proof.
  apply Forall_forall. intros q Hq. apply filter_In in Hq.
  destruct Hq as [Hin Hw].
  assert (Hs : scored q).
  { pose proof (map_score_scored qs) as H.
    rewrite Forall_forall in H. now apply H. }
  split; [exact Hs |].
  rewrite (withinRadius_scored q Hs) in Hw. now apply leb_le.
Qed.

Lemma kept_scored (qs : list Doc.Question) : Forall scored (kept qs).
Proof.
  eapply Forall_impl; [| apply kept_within]. now intros q [H _].
Qed.

Lemma loadNearbyQuestions_unfold (qs : list Doc.Question) :
  GoogleAuth.loadNearbyQuestions qs userLat userLng radiusMeters
  = firstn 30 (JS.sort Doc.byDistance (kept qs)).
Proof. reflexivity. Qed.

Lemma loadNearbyQuestions_sound (qs : list Doc.Question) :
  Props.withinAndSorted dist radiusMeters
    (GoogleAuth.loadNearbyQuestions qs userLat userLng radiusMeters).
Proof.
  rewrite loadNearbyQuestions_unfold. split.
  - apply firstn_Forall, sort_Forall, kept_within.
  - apply firstn_sorted.
    apply (sort_sorted Doc.byDistance dist scored byDistance_dist).
    apply kept_scored.
Qed.

Lemma loadNearbyQuestions_length (qs : list Doc.Question) :
  List.length
    (GoogleAuth.loadNearbyQuestions qs userLat userLng radiusMeters)
  = Nat.min 30 (Reference.countWithin userLat userLng radiusMeters qs).
Proof.
  rewrite loadNearbyQuestions_unfold, length_firstn, sort_length.
  f_equal. unfold kept, Reference.countWithin.
  rewrite filter_map_swap, length_map. f_equal.
  apply filter_ext. intro q.
  rewrite (withinRadius_scored (score q) (score_scored q)).
  unfold dist. cbn [score Doc.withDistance Doc.lat Doc.lng].
  now rewrite haversine_code_reference.
Qed.

Lemma loadNearbyQuestions_fixed (out : list Doc.Question) :
  Props.withinAndSorted dist radiusMeters out ->
  (List.length out <= 30)%nat ->
  GoogleAuth.loadNearbyQuestions out userLat userLng radiusMeters = out.
Proof.
  intros [Hwithin Hsorted] Hlen.
  assert (Hscored : Forall scored out).
  { eapply Forall_impl; [| exact Hwithin]. now intros q [H _]. }
  rewrite loadNearbyQuestions_unfold. unfold kept.
  assert (Hmap : map score out = out).
  { clear - Hscored. induction Hscored as [|q l Hq Hl IH]; simpl;
      [reflexivity |]. now rewrite IH, (score_fixed q Hq). }
  rewrite Hmap, filter_all.
  - rewrite (sort_sorted_id Doc.byDistance dist scored byDistance_dist)
      by assumption.
    now apply firstn_all2.
  - eapply Forall_impl; [| exact Hwithin]. intros q [Hs Hd].
    rewrite (withinRadius_scored q Hs). now apply leb_le.
Qed.

Lemma loadNearbyQuestions_ties (d : R) (qs : list Doc.Question) :
  exists k : nat,
    filter (Props.atDistance d)
      (GoogleAuth.loadNearbyQuestions qs userLat userLng radiusMeters)
    = firstn k
        (map (fun q => Doc.withDistance q d)
           (filter (fun q => Props.eqb (dist q) d) qs)).
Proof.
  rewrite loadNearbyQuestions_unfold.
  destruct (filter_firstn_prefix (Props.atDistance d) 30
              (JS.sort Doc.byDistance (kept qs))) as [k Hk].
  rewrite Hk.
  assert (Hties : filter (Props.atDistance d)
                    (JS.sort Doc.byDistance (kept qs))
                  = filter (Props.atDistance d) (kept qs)).
  { pose proof (kept_scored qs) as Hs.
    rewrite 2 (filter_ext_in (Props.atDistance d)
                 (fun q => Props.eqb (dist q) d)).
    - apply (filter_tie_sort Doc.byDistance dist scored byDistance_dist).
      exact Hs.
    - intros q Hq. apply atDistance_scored.
      rewrite Forall_forall in Hs. now apply Hs.
    - intros q Hq. apply atDistance_scored.
      apply sort_In in Hq. rewrite Forall_forall in Hs. now apply Hs. }
  rewrite Hties. unfold kept.
  rewrite !filter_map_swap.
  rewrite (filter_ext (fun q => Props.atDistance d (score q))
             (fun q => Props.eqb (dist q) d)) by reflexivity.
  rewrite (filter_ext (fun q => Doc.withinRadius radiusMeters (score q))
             (fun q => JS.leb (dist q) radiusMeters)) by reflexivity.
  rewrite (filter_filter_const _ _ (JS.leb d radiusMeters)).
  - destruct (JS.leb d radiusMeters).
    + exists k. f_equal. apply map_ext_in. intros q Hq.
      apply filter_In in Hq. destruct Hq as [_ Hq]. apply eqb_eq in Hq.
      unfold score. now rewrite Hq.
    + exists 0%nat. now rewrite firstn_nil.
  - intros q Hq. apply eqb_eq in Hq. now rewrite Hq.
Qed.

End ProximityFilter.

(** ** localStorage variant against the Firestore variants *)

Section LocalVariant.
Variable st : LocalStorage.Storage.
Variables userLat userLng radiusMeters : R.

(** Rankings as lists of (id, distance). *)
Let Rank : Type := (string * option R)%type.
Let rankOfEntry (e : LocalStorage.IndexEntry) : Rank :=
  (LocalStorage.id e, LocalStorage.distance e).
Let compareRank (a b : Rank) : option R :=
  match snd a, snd b with
  | Some x, Some y => Some (x - y)
  | _, _ => None
  end.
Let rankWithin (a : Rank) : bool :=
  match snd a with
  | Some d => JS.leb d radiusMeters
  | None => false
  end.
Let rankOfCandidate (c : string * R * R) : Rank :=
  let '(i, la, lo) := c in
  (i, Some (GoogleAuth.haversineDistance userLat userLng la lo)).
Let ranking (n : nat) (cs : list (string * R * R)) : list Rank :=
  firstn n (JS.sort compareRank (filter rankWithin (map rankOfCandidate cs))).

Lemma firestore_ranking (qs : list Doc.Question) :
  map Props.ranked
    (GoogleAuth.loadNearbyQuestions qs userLat userLng radiusMeters)
  = ranking 30 (map Props.candidate qs).
Proof.
  unfold GoogleAuth.loadNearbyQuestions, JS.slice0, ranking.
  rewrite <- firstn_map.
  rewrite (map_sort Props.ranked Doc.byDistance compareRank)
    by reflexivity.
  rewrite !map_map, !filter_map_swap, !map_map. reflexivity.
Qed.

Lemma collect_ranking (entries : list LocalStorage.IndexEntry) :
  Forall (fun e => LocalStorage.getItem st (LocalStorage.id e) <> None)
    entries ->
  map Props.ranked (LocalStorage.collect st entries)
  = map rankOfEntry entries.
Proof.
  induction 1 as [|e l He Hl IH]; simpl; [reflexivity |].
  destruct (LocalStorage.getItem st (LocalStorage.id e)) as [data |];
    [| contradiction].
  simpl. now rewrite IH.
Qed.

Lemma local_ranking (index : list LocalStorage.IndexEntry) :
  LocalStorage.geoq_index st = Some index ->
  (forall e, In e index ->
             LocalStorage.getItem st (LocalStorage.id e) <> None) ->
  map Props.ranked
    (LocalStorage.loadNearbyQuestions st userLat userLng radiusMeters)
  = ranking 20 (map Props.indexCandidate index).
Proof.
  intros Hindex Hstored.
  unfold LocalStorage.loadNearbyQuestions, JS.slice0, ranking.
  rewrite Hindex, collect_ranking.
  - rewrite <- firstn_map.
    rewrite (map_sort rankOfEntry LocalStorage.byDistance compareRank)
      by reflexivity.
    rewrite !map_map, !filter_map_swap, !map_map. reflexivity.
  - apply firstn_Forall, sort_Forall.
    apply Forall_forall. intros e He.
    apply filter_In in He. destruct He as [He _].
    apply in_map_iff in He. destruct He as [e0 [<- He0]].
    exact (Hstored e0 He0).
Qed.

Lemma local_firestore_ranking (index : list LocalStorage.IndexEntry)
    (qs : list Doc.Question) :
  LocalStorage.geoq_index st = Some index ->
  map Props.indexCandidate index = map Props.candidate qs ->
  (forall e, In e index ->
             LocalStorage.getItem st (LocalStorage.id e) <> None) ->
  map Props.ranked
    (LocalStorage.loadNearbyQuestions st userLat userLng radiusMeters)
  = firstn 20
      (map Props.ranked
         (GoogleAuth.loadNearbyQuestions qs userLat userLng radiusMeters)).
Proof.
  intros Hindex Hsame Hstored.
  rewrite (local_ranking index Hindex Hstored), firestore_ranking, Hsame.
  unfold ranking. now rewrite firstn_firstn.
Qed.

End LocalVariant.

(** ** A crowd of questions at the observer's position *)

Lemma username_loadNearbyQuestions (qs : list Doc.Question) (lat lng r : R) :
  Username.loadNearbyQuestions qs lat lng r
  = GoogleAuth.loadNearbyQuestions qs lat lng r.
Proof. reflexivity. Qed.

Lemma countWithin_crowd (n : nat) (r : R) :
  0 <= r -> Reference.countWithin 0 0 r (Props.crowd n) = n.
Proof.
  intro Hr. unfold Reference.countWithin, Props.crowd.
  rewrite filter_all; [apply repeat_length |].
  apply Forall_forall. intros q Hq. apply repeat_spec in Hq. subst q.
  cbn [Props.questionAt Doc.lat Doc.lng].
  rewrite <- haversine_code_reference, haversine_same_point.
  now apply leb_le.
Qed.

Lemma firestore_crowd_length (n : nat) :
  List.length (GoogleAuth.loadNearbyQuestions (Props.crowd n) 0 0 1)
  = Nat.min 30 n.
Proof.
  rewrite loadNearbyQuestions_length, countWithin_crowd; [reflexivity | lra].
Qed.

Lemma local_crowd_length (n : nat) :
  List.length (LocalStorage.loadNearbyQuestions (Props.crowdStorage n) 0 0 1)
  = Nat.min 20 (Nat.min 30 n).
Proof.
  rewrite <- (length_map Props.ranked).
  rewrite (local_firestore_ranking (Props.crowdStorage n) 0 0 1
             (repeat (Props.entryAt "q" 0 0) n) (Props.crowd n)).
  - now rewrite length_firstn, length_map, firestore_crowd_length.
  - reflexivity.
  - unfold Props.crowd. now rewrite !map_repeat.
  - intros e _. discriminate.
Qed.

(** ** The claims on the proximity filter *)

Example loadNearbyQuestions_empty (lat lng r : R) :
  GoogleAuth.loadNearbyQuestions [] lat lng r = [].
Proof. reflexivity. Qed.

(** C1. For every observer position, candidate list and radius, every item
    of the filter's output carries its haversine distance from the observer,
    that distance is at most the radius, and the output is sorted
    non-decreasing by it (Google sign-in and username variants). *)
Theorem loadNearbyQuestions_within_sorted :
  forall (qs : list Doc.Question) (userLat userLng radiusMeters : R),
    Props.withinAndSorted
      (fun q => GoogleAuth.haversineDistance userLat userLng
                  (Doc.lat q) (Doc.lng q))
      radiusMeters
      (GoogleAuth.loadNearbyQuestions qs userLat userLng radiusMeters)
    /\ Props.withinAndSorted
      (fun q => Username.haversineDistance userLat userLng
                  (Doc.lat q) (Doc.lng q))
      radiusMeters
      (Username.loadNearbyQuestions qs userLat userLng radiusMeters).
Proof.
  intros qs userLat userLng radiusMeters.
  split; apply loadNearbyQuestions_sound.
Qed.

(** C2, as stated, fails: the filter has no cap argument.  With a cap of 1
    and two candidates at the observer's position, both are returned. *)
Lemma result_cap_is_not_an_input :
  let cap := 1%nat in
  let out := GoogleAuth.loadNearbyQuestions (Props.crowd 2) 0 0 1 in
  ~ (List.length out
     <= Nat.min cap (Reference.countWithin 0 0 1 (Props.crowd 2)))%nat.
Proof.
  cbv zeta. rewrite firestore_crowd_length, countWithin_crowd by lra.
  simpl. lia.
Qed.

(** C2, amended.  The result cap is the constant 30 of the code, not an
    input: for every observer position, candidate list and radius, the
    length of the output is at most the minimum of 30 and the number of
    candidates whose distance from the observer is at most the radius. *)
Theorem loadNearbyQuestions_length_bound :
  forall (qs : list Doc.Question) (userLat userLng radiusMeters : R),
    (List.length
       (GoogleAuth.loadNearbyQuestions qs userLat userLng radiusMeters)
     <= Nat.min 30
          (Reference.countWithin userLat userLng radiusMeters qs))%nat.
Proof.
  intros. rewrite loadNearbyQuestions_length. apply Nat.le_refl.
Qed.

(** C7. The filter is idempotent: applied to its own output with the same
    observer position and radius, it returns that output unchanged. *)
Theorem loadNearbyQuestions_idempotent :
  forall (qs : list Doc.Question) (userLat userLng radiusMeters : R),
    let out :=
      GoogleAuth.loadNearbyQuestions qs userLat userLng radiusMeters in
    GoogleAuth.loadNearbyQuestions out userLat userLng radiusMeters = out.
Proof.
  intros qs userLat userLng radiusMeters out. subst out.
  apply loadNearbyQuestions_fixed.
  - apply loadNearbyQuestions_sound.
  - rewrite loadNearbyQuestions_length. apply Nat.le_min_l.
Qed.

(** C8. Candidates at exactly equal distance keep their order of the
    candidate list: for every distance [d], the items of the output at
    distance [d] are the first [k] candidates at distance [d], in candidate
    order, each with its [distance] set. *)
Theorem loadNearbyQuestions_stable :
  forall (qs : list Doc.Question) (userLat userLng radiusMeters d : R),
    exists k : nat,
      filter (Props.atDistance d)
        (GoogleAuth.loadNearbyQuestions qs userLat userLng radiusMeters)
      = firstn k
          (map (fun q => Doc.withDistance q d)
             (filter
                (fun q =>
                   Props.eqb
                     (GoogleAuth.haversineDistance userLat userLng
                        (Doc.lat q) (Doc.lng q)) d)
                qs)).
Proof.
  intros. apply loadNearbyQuestions_ties.
Qed.

(** C5, as stated, fails: with 21 questions at the observer's position the
    localStorage variant returns 20 results and the Firestore variant 21. *)
Lemma local_variant_caps_at_20 :
  let index := repeat (Props.entryAt "q" 0 0) 21 in
  let local :=
    LocalStorage.loadNearbyQuestions (Props.crowdStorage 21) 0 0 1 in
  let firestore := GoogleAuth.loadNearbyQuestions (Props.crowd 21) 0 0 1 in
  LocalStorage.geoq_index (Props.crowdStorage 21) = Some index
  /\ map Props.indexCandidate index = map Props.candidate (Props.crowd 21)
  /\ List.length local = 20%nat
  /\ List.length firestore = 21%nat
  /\ map Props.ranked local <> map Props.ranked firestore.
Proof.
  cbv zeta.
  assert (Hl := local_crowd_length 21).
  assert (Hf := firestore_crowd_length 21).
  change (Nat.min 20 (Nat.min 30 21)) with 20%nat in Hl.
  change (Nat.min 30 21) with 21%nat in Hf.
  split; [reflexivity |]. split; [reflexivity |].
  split; [exact Hl |]. split; [exact Hf |].
  intro Heq. apply (f_equal (@List.length _)) in Heq.
  rewrite !length_map, Hl, Hf in Heq. discriminate.
Qed.

(** C5, amended.  The two Firestore variants (Google sign-in, username) are
    the same function.  The localStorage variant ranks the same candidates
    in the same way but keeps 20 results instead of 30: when every index
    entry has its stored record, the ids and distances of its results are
    the first 20 of those of the Firestore variants. *)
Theorem variants_same_ranking :
  forall (qs : list Doc.Question) (userLat userLng radiusMeters : R),
    Username.loadNearbyQuestions qs userLat userLng radiusMeters
    = GoogleAuth.loadNearbyQuestions qs userLat userLng radiusMeters
    /\ forall (st : LocalStorage.Storage)
              (index : list LocalStorage.IndexEntry),
        LocalStorage.geoq_index st = Some index ->
        map Props.indexCandidate index = map Props.candidate qs ->
        (forall e, In e index ->
                   LocalStorage.getItem st (LocalStorage.id e) <> None) ->
        map Props.ranked
          (LocalStorage.loadNearbyQuestions st userLat userLng radiusMeters)
        = firstn 20
            (map Props.ranked
               (GoogleAuth.loadNearbyQuestions qs userLat userLng
                  radiusMeters)).
Proof.
  intros qs userLat userLng radiusMeters. split.
  - reflexivity.
  - intros st index. apply local_firestore_ranking.
Qed.

Lemma variants_same_ranking_witness :
  map Props.ranked
    (LocalStorage.loadNearbyQuestions (Props.crowdStorage 2) 0 0 1)
  = firstn 20
      (map Props.ranked
         (GoogleAuth.loadNearbyQuestions (Props.crowd 2) 0 0 1)).
Proof.
  apply (proj2 (variants_same_ranking (Props.crowd 2) 0 0 1)
           (Props.crowdStorage 2) (repeat (Props.entryAt "q" 0 0) 2)).
  - reflexivity.
  - reflexivity.
  - intros e _. discriminate.
Defined.

(** * Further properties *)

(** ** Haversine distance *)

Lemma haversineDistance_via_a (lat1 lon1 lat2 lon2 : R) :
  GoogleAuth.haversineDistance lat1 lon1 lat2 lon2
  = 6371000 * 2
    * JS.atan2 (sqrt (Geo.haversineA lat1 lon1 lat2 lon2))
               (sqrt (1 - Geo.haversineA lat1 lon1 lat2 lon2)).
Proof. reflexivity. Qed.

Lemma haversineA_sym (lat1 lon1 lat2 lon2 : R) :
  Geo.haversineA lat1 lon1 lat2 lon2 = Geo.haversineA lat2 lon2 lat1 lon1.
Proof.
  unfold Geo.haversineA. cbv zeta.
  replace ((lat1 - lat2) * PI / 180 / 2)
    with (- ((lat2 - lat1) * PI / 180 / 2)) by field.
  replace ((lon1 - lon2) * PI / 180 / 2)
    with (- ((lon2 - lon1) * PI / 180 / 2)) by field.
  rewrite !sin_neg. ring.
Qed.

(** X1. The distance is symmetric: from a first point to a second it is the
    same as from the second to the first. *)
Theorem haversineDistance_sym :
  forall lat1 lon1 lat2 lon2 : R,
    GoogleAuth.haversineDistance lat1 lon1 lat2 lon2
    = GoogleAuth.haversineDistance lat2 lon2 lat1 lon1.
Proof.
  intros. rewrite !haversineDistance_via_a.
  now rewrite (haversineA_sym lat1 lon1 lat2 lon2).
Qed.

Lemma toRad_lat_bound (lat : R) :
  Geo.validLat lat -> - (PI / 2) <= lat * PI / 180 <= PI / 2.
Proof.
  unfold Geo.validLat. intros [Hlo Hhi]. pose proof PI_RGT_0 as Hpi.
  split; nra.
Qed.

(** For latitudes in range, [a] lies in [[0, 1]]: both square roots of the
    code are taken of non-negative numbers. *)
Lemma haversineA_range (lat1 lon1 lat2 lon2 : R) :
  Geo.validLat lat1 -> Geo.validLat lat2 ->
  0 <= Geo.haversineA lat1 lon1 lat2 lon2 <= 1.
Proof.
  intros H1 H2. unfold Geo.haversineA. cbv zeta.
  apply toRad_lat_bound in H1, H2.
  set (p1 := lat1 * PI / 180) in *. set (p2 := lat2 * PI / 180) in *.
  replace ((lat2 - lat1) * PI / 180 / 2) with ((p2 - p1) / 2)
    by (unfold p1, p2; field).
  set (u := (p2 - p1) / 2). set (v := (lon2 - lon1) * PI / 180 / 2).
  assert (Hc1 : 0 <= cos p1) by (apply cos_ge_0; lra).
  assert (Hc2 : 0 <= cos p2) by (apply cos_ge_0; lra).
  assert (Hsv : 0 <= sin v ^ 2 <= 1).
  { pose proof (sin2_cos2 v) as E. unfold Rsqr in E.
    pose proof (pow2_ge_0 (sin v)). pose proof (pow2_ge_0 (cos v)).
    split; [assumption | nra]. }
  assert (Hsu : sin u ^ 2 + cos u ^ 2 = 1).
  { pose proof (sin2_cos2 u) as E. unfold Rsqr in E. lra. }
  assert (Hprod : cos p1 * cos p2 <= cos u ^ 2).
  { assert (E1 : cos (p2 - p1) = cos p2 * cos p1 + sin p2 * sin p1)
      by apply cos_minus.
    assert (E2 : cos (p2 + p1) = cos p2 * cos p1 - sin p2 * sin p1)
      by apply cos_plus.
    assert (E3 : cos (p2 - p1) = 2 * cos u ^ 2 - 1).
    { replace (p2 - p1) with (2 * u) by (unfold u; field).
      rewrite cos_2a_cos. ring. }
    pose proof (COS_bound (p2 + p1)) as [_ Hb]. lra. }
  pose proof (pow2_ge_0 (sin u)).
  split.
  - assert (0 <= cos p1 * cos p2 * sin v ^ 2).
    { apply Rmult_le_pos; [apply Rmult_le_pos |]; lra. }
    lra.
  - assert (cos p1 * cos p2 * sin v ^ 2 <= cos p1 * cos p2 * 1).
    { apply Rmult_le_compat_l; [apply Rmult_le_pos; lra | lra]. }
    lra.
Qed.

Lemma atan2_quadrant (y x : R) :
  0 <= y -> 0 <= x -> 0 <= JS.atan2 y x <= PI / 2.
Proof.
  intros Hy Hx. pose proof PI_RGT_0 as Hpi. unfold JS.atan2.
  destruct (Rlt_dec 0 x) as [Hpos | Hnpos].
  - pose proof (atan_bound (y / x)) as [_ Hub].
    split; [| lra].
    destruct (Req_dec y 0) as [-> | Hne].
    + replace (0 / x) with 0 by (field; lra). rewrite atan_0. lra.
    + assert (0 < y / x) by (apply Rdiv_lt_0_compat; lra).
      pose proof (atan_increasing 0 (y / x) H) as Hinc.
      rewrite atan_0 in Hinc. lra.
  - destruct (Rlt_dec x 0); [lra |].
    destruct (Rlt_dec 0 y); [lra |].
    destruct (Rlt_dec y 0); lra.
Qed.

(** X2. For latitudes between -90 and 90 degrees the distance is a number
    between 0 and half the circumference of the sphere, [PI * 6371000]
    metres; the quantity [a] whose square roots are taken lies in
    [[0, 1]]. *)
Theorem haversineDistance_range :
  forall lat1 lon1 lat2 lon2 : R,
    Geo.validLat lat1 -> Geo.validLat lat2 ->
    0 <= Geo.haversineA lat1 lon1 lat2 lon2 <= 1
    /\ 0 <= GoogleAuth.haversineDistance lat1 lon1 lat2 lon2
         <= PI * 6371000.
Proof.
  intros lat1 lon1 lat2 lon2 H1 H2.
  pose proof (haversineA_range lat1 lon1 lat2 lon2 H1 H2) as Ha.
  split; [exact Ha |].
  rewrite haversineDistance_via_a.
  pose proof (atan2_quadrant
                (sqrt (Geo.haversineA lat1 lon1 lat2 lon2))
                (sqrt (1 - Geo.haversineA lat1 lon1 lat2 lon2))
                (sqrt_pos _) (sqrt_pos _)) as [Hlo Hhi].
  split; nra.
Qed.

Lemma haversineDistance_range_witness :
  Geo.validLat 90 /\ Geo.validLat (-90)
  /\ 0 <= GoogleAuth.haversineDistance 90 0 (-90) 0 <= PI * 6371000.
Proof.
  assert (H1 : Geo.validLat 90) by (unfold Geo.validLat; lra).
  assert (H2 : Geo.validLat (-90)) by (unfold Geo.validLat; lra).
  split; [exact H1 |]. split; [exact H2 |].
  exact (proj2 (haversineDistance_range 90 0 (-90) 0 H1 H2)).
Defined.

(** X3. A point is at distance 0 from itself, so a question published at
    the observer's position passes the radius test for every radius that is
    not negative. *)
Theorem haversineDistance_same_point :
  forall lat lon radiusMeters : R,
    GoogleAuth.haversineDistance lat lon lat lon = 0
    /\ (0 <= radiusMeters ->
        forall q : Doc.Question,
          Doc.lat q = lat -> Doc.lng q = lon ->
          Doc.withinRadius radiusMeters
            (Doc.withDistance q
               (GoogleAuth.haversineDistance lat lon (Doc.lat q) (Doc.lng q)))
          = true).
Proof.
  intros lat lon r. split; [apply haversine_same_point |].
  intros Hr q -> ->. unfold Doc.withinRadius. cbn [Doc.withDistance Doc.distance].
  rewrite haversine_same_point. now apply leb_le.
Qed.

Lemma haversineDistance_same_point_witness :
  0 <= 1000 /\
  Doc.withinRadius 1000
    (Doc.withDistance (Props.questionAt "q" 48 2)
       (GoogleAuth.haversineDistance 48 2 48 2)) = true.
Proof.
  assert (Hr : 0 <= 1000) by lra.
  split; [exact Hr |].
  exact (proj2 (haversineDistance_same_point 48 2 1000) Hr
           (Props.questionAt "q" 48 2) eq_refl eq_refl).
Defined.

(** ** The filter returns the nearest candidates *)

Section SortPermutation.
Context {A : Type}.
Variable comparefn : A -> A -> option R.

Lemma insert_Permutation (x : A) (l : list A) :
  Permutation (JS.insert comparefn x l) (x :: l).
Proof.
  induction l as [|z l IH]; simpl; [reflexivity |].
  destruct (JS.leb _ 0); [reflexivity |].
  rewrite IH. apply perm_swap.
Qed.

Lemma sort_Permutation (l : list A) : Permutation (JS.sort comparefn l) l.
Proof.
  induction l as [|x l IH]; simpl; [reflexivity |].
  rewrite insert_Permutation. now constructor.
Qed.

Lemma sorted_split (le : A -> A -> Prop) (n : nat) (l : list A) :
  StronglySorted le l ->
  forall a b, In a (firstn n l) -> In b (skipn n l) -> le a b.
Proof.
  intro Hs. revert n. induction Hs as [|x l Hs IH Hx]; intros n a b Ha Hb.
  - rewrite firstn_nil in Ha. contradiction.
  - destruct n as [|n]; [contradiction |]. simpl in Ha, Hb.
    destruct Ha as [<- | Ha].
    + rewrite Forall_forall in Hx. apply Hx.
      rewrite <- (firstn_skipn n l). apply in_or_app. now right.
    + now apply (IH n).
Qed.

End SortPermutation.

(** X4. The output of the filter holds the nearest candidates: with the
    scored candidates within the radius that are left out it makes up all
    the scored candidates within the radius, every one left out is at least
    as far from the observer as every one returned, and none is left out
    when at most 30 are within the radius. *)
Theorem loadNearbyQuestions_nearest :
  forall (qs : list Doc.Question) (userLat userLng radiusMeters : R),
    let dist := fun q =>
      GoogleAuth.haversineDistance userLat userLng (Doc.lat q) (Doc.lng q) in
    let kept :=
      filter (Doc.withinRadius radiusMeters)
        (map (fun q => Doc.withDistance q (dist q)) qs) in
    let out :=
      GoogleAuth.loadNearbyQuestions qs userLat userLng radiusMeters in
    exists rest : list Doc.Question,
      Permutation (out ++ rest) kept
      /\ (forall o x, In o out -> In x rest -> dist o <= dist x)
      /\ ((List.length kept <= 30)%nat -> rest = [] /\ Permutation out kept).
Proof.
  intros qs userLat userLng radiusMeters dist kept out.
  exists (skipn 30 (JS.sort Doc.byDistance kept)).
  assert (Hout : out = firstn 30 (JS.sort Doc.byDistance kept))
    by reflexivity.
  rewrite Hout, firstn_skipn.
  split; [apply sort_Permutation |]. split.
  - apply (sorted_split (fun a b => dist a <= dist b)).
    apply (sort_sorted Doc.byDistance dist
             (fun q => Doc.distance q = Some (dist q))).
    + apply byDistance_dist.
    + apply kept_scored.
  - intro Hlen. rewrite firstn_all2, skipn_all2
      by (rewrite sort_length; exact Hlen).
    split; [reflexivity | apply sort_Permutation].
Qed.

Lemma loadNearbyQuestions_nearest_witness :
  exists rest : list Doc.Question,
    rest = []
    /\ Permutation (GoogleAuth.loadNearbyQuestions (Props.crowd 2) 0 0 1)
         (filter (Doc.withinRadius 1)
            (map (fun q => Doc.withDistance q
                    (GoogleAuth.haversineDistance 0 0 (Doc.lat q) (Doc.lng q)))
               (Props.crowd 2))).
Proof.
  destruct (loadNearbyQuestions_nearest (Props.crowd 2) 0 0 1)
    as [rest [_ [_ Hall]]].
  exists rest. apply Hall.
  rewrite filter_length_le. simpl. lia.
Defined.

(** ** localStorage variant: the filter *)

Section LocalFilter.
Variable st : LocalStorage.Storage.
Variables userLat userLng radiusMeters : R.

Let keyE (e : LocalStorage.IndexEntry) : R :=
  LocalStorage.haversineDistance userLat userLng
    (LocalStorage.lat e) (LocalStorage.lng e).
Let scoreE (e : LocalStorage.IndexEntry) : LocalStorage.IndexEntry :=
  LocalStorage.withDistance e (keyE e).
Let scoredE (e : LocalStorage.IndexEntry) : Prop :=
  LocalStorage.distance e = Some (keyE e).
Let nearby : list LocalStorage.IndexEntry :=
  JS.sort LocalStorage.byDistance
    (filter (LocalStorage.withinRadius radiusMeters)
       (map scoreE (LocalPublish.indexOf st))).

Lemma local_byDistance_key (a b : LocalStorage.IndexEntry) :
  scoredE a -> scoredE b ->
  JS.sortCompare LocalStorage.byDistance a b = keyE a - keyE b.
Proof.
  unfold scoredE, JS.sortCompare, LocalStorage.byDistance. now intros -> ->.
Qed.

Lemma local_loadNearbyQuestions_unfold :
  LocalStorage.loadNearbyQuestions st userLat userLng radiusMeters
  = LocalStorage.collect st (firstn 20 nearby).
Proof. reflexivity. Qed.

Lemma nearby_from_index :
  Forall (fun e => exists e0, In e0 (LocalPublish.indexOf st)
                              /\ e = scoreE e0 /\ keyE e0 <= radiusMeters)
    nearby.
Proof.
  apply sort_Forall, Forall_forall. intros e He.
  apply filter_In in He. destruct He as [He Hw].
  apply in_map_iff in He. destruct He as [e0 [<- He0]].
  exists e0. repeat split; try assumption.
  unfold LocalStorage.withinRadius in Hw. simpl in Hw. now apply leb_le.
Qed.

Lemma nearby_scored : Forall scoredE nearby.
Proof.
  eapply Forall_impl; [| apply nearby_from_index].
  intros e [e0 [_ [-> _]]]. reflexivity.
Qed.

Lemma nearby_sorted : StronglySorted (fun a b => keyE a <= keyE b) nearby.
Proof.
  apply (sort_sorted LocalStorage.byDistance keyE scoredE
           local_byDistance_key).
  apply Forall_forall. intros e He. apply filter_In in He.
  destruct He as [He _]. apply in_map_iff in He.
  destruct He as [e0 [<- _]]. reflexivity.
Qed.

Lemma collect_length (entries : list LocalStorage.IndexEntry) :
  (List.length (LocalStorage.collect st entries) <= List.length entries)%nat.
Proof.
  induction entries as [|e l IH]; simpl; [lia |].
  destruct (LocalStorage.getItem st (LocalStorage.id e)); simpl; lia.
Qed.

Lemma collect_In (entries : list LocalStorage.IndexEntry)
    (q : Doc.Question) :
  In q (LocalStorage.collect st entries) <->
  exists e data, In e entries
                 /\ LocalStorage.getItem st (LocalStorage.id e) = Some data
                 /\ q = LocalStorage.merge e data.
Proof.
  induction entries as [|e l IH]; simpl.
  - split; [contradiction | now intros [? [? [[] _]]]].
  - destruct (LocalStorage.getItem st (LocalStorage.id e)) as [data |] eqn:E;
      simpl; rewrite IH; split.
    + intros [<- | [e' [d' [Hin [Hget Hq]]]]].
      * exists e, data. auto.
      * exists e', d'. auto.
    + intros [e' [d' [[<- | Hin] [Hget Hq]]]].
      * left. rewrite E in Hget. injection Hget as <-. now symmetry.
      * right. exists e', d'. auto.
    + intros [e' [d' [Hin [Hget Hq]]]]. exists e', d'. auto.
    + intros [e' [d' [[<- | Hin] [Hget Hq]]]].
      * rewrite E in Hget. discriminate.
      * exists e', d'. auto.
Qed.

Lemma collect_sorted (entries : list LocalStorage.IndexEntry) :
  Forall scoredE entries ->
  StronglySorted (fun a b => keyE a <= keyE b) entries ->
  StronglySorted
    (fun a b => LocalPublish.shownDistance a <= LocalPublish.shownDistance b)
    (LocalStorage.collect st entries).
Proof.
  intros Hsc Hs. induction Hs as [|e l Hs IH He]; simpl; [constructor |].
  inversion Hsc as [|? ? Hsce Hscl]; subst.
  destruct (LocalStorage.getItem st (LocalStorage.id e)) as [data |];
    [| now apply IH].
  constructor; [now apply IH |].
  apply Forall_forall. intros q Hq. apply collect_In in Hq.
  destruct Hq as [e' [d' [Hin [_ ->]]]].
  rewrite Forall_forall in He, Hscl.
  specialize (He e' Hin). specialize (Hscl e' Hin).
  unfold LocalPublish.shownDistance, LocalStorage.merge. cbn [Doc.distance].
  unfold scoredE in Hsce, Hscl. now rewrite Hsce, Hscl.
Qed.

Lemma local_loadNearbyQuestions_sound :
  let out :=
    LocalStorage.loadNearbyQuestions st userLat userLng radiusMeters in
  (List.length out <= 20)%nat
  /\ Forall (fun q => exists d, Doc.distance q = Some d /\ d <= radiusMeters)
       out
  /\ StronglySorted
       (fun a b =>
          LocalPublish.shownDistance a <= LocalPublish.shownDistance b)
       out.
Proof.
  cbv zeta. rewrite local_loadNearbyQuestions_unfold. repeat split.
  - etransitivity; [apply collect_length |]. apply firstn_le_length.
  - apply Forall_forall. intros q Hq. apply collect_In in Hq.
    destruct Hq as [e [data [Hin [_ ->]]]].
    pose proof (firstn_Forall _ 20 _ nearby_from_index) as Hn.
    rewrite Forall_forall in Hn.
    destruct (Hn e Hin) as [e0 [_ [-> Hle]]].
    exists (keyE e0). split; [reflexivity | exact Hle].
  - apply collect_sorted.
    + apply firstn_Forall, nearby_scored.
    + apply firstn_sorted, nearby_sorted.
Qed.

Lemma local_loadNearbyQuestions_provenance (q : Doc.Question) :
  In q (LocalStorage.loadNearbyQuestions st userLat userLng radiusMeters) ->
  exists e data,
    In e (LocalPublish.indexOf st)
    /\ LocalStorage.getItem st (LocalStorage.id e) = Some data
    /\ keyE e <= radiusMeters
    /\ q = LocalStorage.merge (scoreE e) data.
Proof.
  rewrite local_loadNearbyQuestions_unfold. intro Hq.
  apply collect_In in Hq. destruct Hq as [e [data [Hin [Hget ->]]]].
  pose proof (firstn_Forall _ 20 _ nearby_from_index) as Hn.
  rewrite Forall_forall in Hn.
  destruct (Hn e Hin) as [e0 [Hin0 [-> Hle]]].
  exists e0, data. repeat split; assumption.
Qed.

(** When at most 20 entries are within the radius, every index entry within
    the radius that has a stored record is returned. *)
Lemma local_loadNearbyQuestions_complete (e : LocalStorage.IndexEntry)
    (data : LocalStorage.QuestionData) :
  (List.length
     (filter (fun e0 => JS.leb (keyE e0) radiusMeters)
        (LocalPublish.indexOf st)) <= 20)%nat ->
  In e (LocalPublish.indexOf st) ->
  keyE e <= radiusMeters ->
  LocalStorage.getItem st (LocalStorage.id e) = Some data ->
  In (LocalStorage.merge (scoreE e) data)
    (LocalStorage.loadNearbyQuestions st userLat userLng radiusMeters).
Proof.
  intros Hcount Hin Hle Hget.
  rewrite local_loadNearbyQuestions_unfold. apply collect_In.
  exists (scoreE e), data. repeat split; [| exact Hget].
  rewrite firstn_all2.
  - apply sort_In, filter_In. split.
    + apply in_map, Hin.
    + unfold LocalStorage.withinRadius. simpl. now apply leb_le.
  - unfold nearby. rewrite sort_length, filter_map_swap, length_map.
    exact Hcount.
Qed.

End LocalFilter.

(** X5. localStorage variant: the filter returns at most 20 results, every
    result carries a distance that is at most the radius, and the results
    are in non-decreasing order of that distance. *)
Theorem local_filter_within_sorted :
  forall (st : LocalStorage.Storage) (userLat userLng radiusMeters : R),
    let out :=
      LocalStorage.loadNearbyQuestions st userLat userLng radiusMeters in
    (List.length out <= 20)%nat
    /\ Forall (fun q => exists d, Doc.distance q = Some d /\ d <= radiusMeters)
         out
    /\ StronglySorted
         (fun a b =>
            LocalPublish.shownDistance a <= LocalPublish.shownDistance b)
         out.
Proof.
  intros. apply local_loadNearbyQuestions_sound.
Qed.

(** X6. localStorage variant: every result is an entry of the stored index
    within the radius, merged with the record stored under its id; its
    distance is computed from the position in the index entry.  Entries
    without a stored record are left out, and without an index the result
    is empty. *)
Theorem local_filter_provenance :
  forall (st : LocalStorage.Storage) (userLat userLng radiusMeters : R),
    let out :=
      LocalStorage.loadNearbyQuestions st userLat userLng radiusMeters in
    (forall q : Doc.Question,
        In q out ->
        exists e data,
          let d := LocalStorage.haversineDistance userLat userLng
                     (LocalStorage.lat e) (LocalStorage.lng e) in
          In e (LocalPublish.indexOf st)
          /\ LocalStorage.getItem st (LocalStorage.id e) = Some data
          /\ d <= radiusMeters
          /\ q = LocalStorage.merge (LocalStorage.withDistance e d) data)
    /\ (LocalStorage.geoq_index st = None -> out = []).
Proof.
  intros st userLat userLng radiusMeters out. split.
  - intros q Hq. cbv zeta.
    now apply (local_loadNearbyQuestions_provenance st userLat userLng
                 radiusMeters).
  - intro Hnone. subst out. unfold LocalStorage.loadNearbyQuestions.
    now rewrite Hnone.
Qed.

Lemma local_filter_provenance_witness :
  let st := {| LocalStorage.geoq_index := None;
               LocalStorage.getItem := fun _ => Some (Props.dataAt 0 0) |} in
  LocalStorage.geoq_index st = None
  /\ LocalStorage.loadNearbyQuestions st 0 0 1 = [].
Proof.
  cbv zeta. split; [reflexivity |].
  apply (proj2 (local_filter_provenance
                  {| LocalStorage.geoq_index := None;
                     LocalStorage.getItem := fun _ => Some (Props.dataAt 0 0) |}
                  0 0 1)).
  reflexivity.
Defined.

(** ** localStorage variant: publication *)

Section Publication.
Import LocalStorage LocalPublish.
Variable st : Storage.
Variable i : string.
Variable now : R.
Variable questionData : QuestionData.

Let st' : Storage := publishQuestion st i now questionData.
Let entry : IndexEntry := indexEntry i now questionData.

Lemma sliceLast_app_last {A : Type} (n : nat) (l : list A) (x : A) :
  sliceLast (S n) (l ++ [x]) = sliceLast n l ++ [x].
Proof.
  unfold sliceLast. rewrite length_app, skipn_app. simpl.
  replace (List.length l + 1 - S n)%nat with (List.length l - n)%nat by lia.
  replace (List.length l - n - List.length l)%nat with 0%nat by lia.
  reflexivity.
Qed.

Lemma publishQuestion_index :
  indexOf st' =
  if (200 <=? List.length (indexOf st))%nat
  then sliceLast 199 (indexOf st) ++ [entry]
  else indexOf st ++ [entry].
Proof.
  unfold st', publishQuestion, indexOf at 1. cbn [geoq_index].
  fold (indexOf st). fold entry.
  rewrite length_app. cbn [List.length].
  destruct (200 <=? List.length (indexOf st))%nat eqn:E.
  - apply Nat.leb_le in E.
    replace (200 <? List.length (indexOf st) + 1)%nat with true
      by (symmetry; apply Nat.ltb_lt; lia).
    apply sliceLast_app_last.
  - apply Nat.leb_gt in E.
    replace (200 <? List.length (indexOf st) + 1)%nat with false
      by (symmetry; apply Nat.ltb_ge; lia).
    reflexivity.
Qed.

Lemma publishQuestion_index_suffix :
  exists dropped kept : list IndexEntry,
    indexOf st = dropped ++ kept
    /\ indexOf st' = kept ++ [entry]
    /\ List.length (indexOf st')
       = Nat.min 200 (S (List.length (indexOf st))).
Proof.
  rewrite publishQuestion_index.
  destruct (200 <=? List.length (indexOf st))%nat eqn:E.
  - apply Nat.leb_le in E.
    exists (firstn (List.length (indexOf st) - 199) (indexOf st)),
           (sliceLast 199 (indexOf st)).
    unfold sliceLast. rewrite firstn_skipn. repeat split.
    rewrite length_app, length_skipn. cbn [List.length]. lia.
  - apply Nat.leb_gt in E. exists [], (indexOf st). repeat split.
    rewrite length_app. cbn [List.length]. lia.
Qed.

Lemma publishQuestion_getItem (key : string) :
  getItem st' key = if String.eqb key i then Some questionData
                    else getItem st key.
Proof. reflexivity. Qed.

Lemma publishQuestion_entry_last : In entry (indexOf st').
Proof.
  destruct publishQuestion_index_suffix as [_ [kept [_ [-> _]]]].
  apply in_or_app. right. now left.
Qed.

End Publication.

(** X7. localStorage variant: after a publication the index holds the new
    entry last, preceded by the entries it held before, of which only the
    oldest are dropped so that it never holds more than 200 entries. *)
Theorem publishQuestion_index_bounded :
  forall (st : LocalStorage.Storage) (i : string) (now : R)
         (questionData : LocalStorage.QuestionData),
    let st' := LocalPublish.publishQuestion st i now questionData in
    exists dropped kept : list LocalStorage.IndexEntry,
      LocalPublish.indexOf st = dropped ++ kept
      /\ LocalPublish.indexOf st'
         = kept ++ [LocalPublish.indexEntry i now questionData]
      /\ List.length (LocalPublish.indexOf st')
         = Nat.min 200 (S (List.length (LocalPublish.indexOf st)))
      /\ (List.length (LocalPublish.indexOf st') <= 200)%nat.
Proof.
  intros st i now questionData st'.
  destruct (publishQuestion_index_suffix st i now questionData)
    as [dropped [kept [H1 [H2 H3]]]].
  exists dropped, kept. fold st' in H2, H3.
  repeat split; try assumption. rewrite H3. apply Nat.le_min_l.
Qed.

(** localStorage variant: a publication stores the record under the new
    id and leaves every record stored under another id in place, also the
    records of entries dropped from the index. *)
Theorem publishQuestion_records_kept :
  forall (st : LocalStorage.Storage) (i : string) (now : R)
         (questionData : LocalStorage.QuestionData),
    let st' := LocalPublish.publishQuestion st i now questionData in
    LocalStorage.getItem st' i = Some questionData
    /\ (forall key : string,
           key <> i ->
           LocalStorage.getItem st' key = LocalStorage.getItem st key)
    /\ (forall e : LocalStorage.IndexEntry,
           In e (LocalPublish.indexOf st) ->
           LocalStorage.getItem st (LocalStorage.id e) <> None ->
           LocalStorage.getItem st' (LocalStorage.id e) <> None).
Proof.
  intros st i now questionData st'. subst st'.
  split; [| split].
  - rewrite publishQuestion_getItem. now rewrite String.eqb_refl.
  - intros key Hne. rewrite publishQuestion_getItem.
    apply String.eqb_neq in Hne. now rewrite Hne.
  - intros e _ Hsome. rewrite publishQuestion_getItem.
    destruct (String.eqb (LocalStorage.id e) i); [discriminate | exact Hsome].
Qed.

Lemma publishQuestion_records_kept_witness :
  let st := Props.crowdStorage 0 in
  let st' := LocalPublish.publishQuestion st "geoq:1-abc" 1 (Props.dataAt 4 5) in
  "q"%string <> "geoq:1-abc"%string
  /\ LocalStorage.getItem st' "q" = LocalStorage.getItem st "q".
Proof.
  cbv zeta.
  assert (Hne : "q"%string <> "geoq:1-abc"%string) by discriminate.
  split; [exact Hne |].
  exact (proj1 (proj2 (publishQuestion_records_kept (Props.crowdStorage 0)
                         "geoq:1-abc" 1 (Props.dataAt 4 5))) "q"%string Hne).
Defined.

(** X8. localStorage variant: a published question is found again.  When
    its position is within the radius of the observer and at most 20 index
    entries are, the filter returns it, with the distance of its position
    and the record that was published. *)
Theorem publishQuestion_then_nearby :
  forall (st : LocalStorage.Storage) (i : string) (now : R)
         (questionData : LocalStorage.QuestionData)
         (userLat userLng radiusMeters : R),
    let st' := LocalPublish.publishQuestion st i now questionData in
    let dist := fun e =>
      LocalStorage.haversineDistance userLat userLng
        (LocalStorage.lat e) (LocalStorage.lng e) in
    let entry := LocalPublish.indexEntry i now questionData in
    dist entry <= radiusMeters ->
    (List.length
       (filter (fun e => JS.leb (dist e) radiusMeters)
          (LocalPublish.indexOf st')) <= 20)%nat ->
    In (LocalStorage.merge (LocalStorage.withDistance entry (dist entry))
          questionData)
      (LocalStorage.loadNearbyQuestions st' userLat userLng radiusMeters).
Proof.
  intros st i now questionData userLat userLng radiusMeters st' dist entry
    Hnear Hcount.
  apply (local_loadNearbyQuestions_complete st' userLat userLng radiusMeters
           entry questionData).
  - exact Hcount.
  - apply publishQuestion_entry_last.
  - exact Hnear.
  - unfold st'. rewrite publishQuestion_getItem.
    unfold entry. cbn [LocalPublish.indexEntry LocalStorage.id].
    now rewrite String.eqb_refl.
Qed.

Lemma publishQuestion_then_nearby_witness :
  let st' := LocalPublish.publishQuestion (Props.crowdStorage 0)
               "geoq:1-abc" 1 (Props.dataAt 0 0) in
  let entry := LocalPublish.indexEntry "geoq:1-abc" 1 (Props.dataAt 0 0) in
  In (LocalStorage.merge
        (LocalStorage.withDistance entry
           (LocalStorage.haversineDistance 0 0 0 0))
        (Props.dataAt 0 0))
    (LocalStorage.loadNearbyQuestions st' 0 0 1).
Proof.
  cbv zeta.
  assert (Hd : LocalStorage.haversineDistance 0 0 0 0 = 0)
    by exact (haversine_same_point 0 0).
  apply (publishQuestion_then_nearby (Props.crowdStorage 0) "geoq:1-abc" 1
           (Props.dataAt 0 0) 0 0 1).
  - change (LocalStorage.haversineDistance 0 0 0 0 <= 1). rewrite Hd. lra.
  - etransitivity; [apply filter_length_le |]. simpl. lia.
Defined.

(** ** Display helpers *)

Example showInt_42 : Display.showInt 42 = "42"%string.
Proof. reflexivity. Qed.

Example timeAgo_90_minutes :
  Display.timeAgo 1700005400000 1700000000000 = "1h ago"%string.
Proof. reflexivity. Qed.

Example timeAgo_future :
  Display.timeAgo 1700000000000 1700000500000 = "just now"%string.
Proof. reflexivity. Qed.

(** X9. [timeAgo] shows the age of a timestamp in whole units, rounded
    down: ["just now"] below one minute (also for a timestamp in the
    future), whole minutes (1 to 59) below one hour, whole hours (1 to 23)
    below one day, whole days from then on. *)
Theorem timeAgo_buckets :
  forall now ts : Z,
    let diff := (now - ts)%Z in
    ((diff < 60000)%Z -> Display.timeAgo now ts = "just now"%string)
    /\ ((60000 <= diff < 3600000)%Z ->
        Display.timeAgo now ts
        = (Display.showInt (diff / 60000) ++ "m ago")%string
        /\ (1 <= diff / 60000 <= 59)%Z)
    /\ ((3600000 <= diff < 86400000)%Z ->
        Display.timeAgo now ts
        = (Display.showInt (diff / 3600000) ++ "h ago")%string
        /\ (1 <= diff / 3600000 <= 23)%Z)
    /\ ((86400000 <= diff)%Z ->
        Display.timeAgo now ts
        = (Display.showInt (diff / 86400000) ++ "d ago")%string
        /\ (1 <= diff / 86400000)%Z).
Proof.
  intros now ts diff. unfold Display.timeAgo. fold diff.
  generalize diff. clear. intro d. cbv zeta.
  assert (Hh : (d / 60000 / 60 = d / 3600000)%Z)
    by (rewrite Z.div_div by lia; reflexivity).
  assert (Hd : (d / 60000 / 60 / 24 = d / 86400000)%Z)
    by (rewrite !Z.div_div by lia; reflexivity).
  rewrite Hd, Hh.
  (split; [| split; [| split]]); intro H;
    repeat match goal with
           | |- context [(?a <? ?b)%Z] =>
               destruct (Z.ltb_spec a b)
           end;
    try split; try reflexivity;
    try (exfalso; Z.to_euclidean_division_equations; lia);
    try (Z.to_euclidean_division_equations; lia).
Qed.

Lemma timeAgo_buckets_witness :
  (60000 <= 1700000300000 - 1700000000000 < 3600000)%Z
  /\ Display.timeAgo 1700000300000 1700000000000 = "5m ago"%string.
Proof.
  assert (H : (60000 <= 1700000300000 - 1700000000000 < 3600000)%Z) by lia.
  split; [exact H |].
  exact (proj1 (proj1 (proj2 (timeAgo_buckets 1700000300000 1700000000000))
                  H)).
Defined.

Lemma round_bounds (x : R) :
  IZR (Display.round x) - / 2 <= x < IZR (Display.round x) + / 2.
Proof.
  unfold Display.round.
  destruct (base_Int_part (x + / 2)) as [Hlo Hhi]. lra.
Qed.

Lemma Int_part_unique (x : R) (k : Z) :
  IZR k <= x < IZR k + 1 -> Int_part x = k.
Proof.
  intros [Hlo Hhi]. destruct (base_Int_part x) as [Ilo Ihi].
  assert (H1 : (Int_part x < k + 1)%Z).
  { apply lt_IZR. rewrite plus_IZR. simpl. lra. }
  assert (H2 : (k < Int_part x + 1)%Z).
  { apply lt_IZR. rewrite plus_IZR. simpl. lra. }
  lia.
Qed.

Lemma round_IZR (k : Z) : Display.round (IZR k) = k.
Proof. unfold Display.round. apply Int_part_unique. lra. Qed.

Lemma round_le (x : R) (k : Z) : x <= IZR k -> (Display.round x <= k)%Z.
Proof.
  intro H. destruct (round_bounds x) as [Hlo _].
  assert (Hlt : (Display.round x < k + 1)%Z).
  { apply lt_IZR. rewrite plus_IZR. simpl. lra. }
  lia.
Qed.

Lemma round_ge (x : R) (k : Z) : IZR k <= x -> (k <= Display.round x)%Z.
Proof.
  intro H. destruct (round_bounds x) as [_ Hhi].
  assert (Hlt : (k < Display.round x + 1)%Z).
  { apply lt_IZR. rewrite plus_IZR. simpl. lra. }
  lia.
Qed.

(** X10. A wider search radius never gives a closer zoom: [radiusToZoom] is
    non-increasing, its values lie between 9 and 15, and the four radii of
    the menu get the four zoom levels 15, 13, 11 and 9. *)
Theorem radiusToZoom_antitone :
  (forall r1 r2 : R,
      r1 <= r2 ->
      (Display.radiusToZoom r2 <= Display.radiusToZoom r1)%Z)
  /\ (forall r : R, (9 <= Display.radiusToZoom r <= 15)%Z)
  /\ map Display.radiusToZoom Display.radiusMenu = [15; 13; 11; 9]%Z.
Proof.
  split; [| split].
  - intros r1 r2 H. unfold Display.radiusToZoom.
    repeat match goal with
           | |- context [Rle_dec ?a ?b] => destruct (Rle_dec a b)
           end; try lia; lra.
  - intro r. unfold Display.radiusToZoom.
    repeat match goal with
           | |- context [Rle_dec ?a ?b] => destruct (Rle_dec a b)
           end; lia.
  - unfold Display.radiusMenu, Display.radiusToZoom. cbn [map].
    repeat match goal with
           | |- context [Rle_dec ?a ?b] => destruct (Rle_dec a b); try lra
           end.
    reflexivity.
Qed.

Lemma radiusToZoom_antitone_witness :
  1000 <= 5000
  /\ (Display.radiusToZoom 5000 <= Display.radiusToZoom 1000)%Z.
Proof.
  assert (H : 1000 <= 5000) by lra.
  split; [exact H |].
  exact (proj1 radiusToZoom_antitone 1000 5000 H).
Defined.

(** X11. The distance shown by [formatDistance] is the true one rounded to
    the unit of its range: to whole metres below 100 m (error at most
    0.5 m), to tens of metres below 1 km (at most 5 m), to tenths of a
    kilometre with one decimal below 10 km (at most 50 m), and to whole
    kilometres from there on (at most 500 m). *)
Theorem formatDistance_accuracy :
  forall m : R,
    0 <= m ->
    (m < 100 ->
     exists n : Z,
       Display.formatDistance m = (Display.showInt n ++ "m away")%string
       /\ Rabs (IZR n - m) <= / 2 /\ (0 <= n <= 100)%Z)
    /\ (100 <= m < 1000 ->
        exists n : Z,
          Display.formatDistance m
          = (Display.showInt (n * 10) ++ "m away")%string
          /\ Rabs (IZR (n * 10) - m) <= 5 /\ (100 <= n * 10 <= 1000)%Z)
    /\ (1000 <= m < 10000 ->
        exists n : Z,
          Display.formatDistance m
          = ((Display.showInt (n / 10) ++ "." ++ Display.showInt (n mod 10))
             ++ "km away")%string
          /\ Rabs (IZR n * 100 - m) <= 50
          /\ (10 <= n <= 100)%Z /\ (0 <= n mod 10 <= 9)%Z)
    /\ (10000 <= m ->
        exists n : Z,
          Display.formatDistance m = (Display.showInt n ++ "km away")%string
          /\ Rabs (IZR n * 1000 - m) <= 500 /\ (10 <= n)%Z).
Proof.
  intros m Hm. unfold Display.formatDistance.
  split; [| split; [| split]]; intro H.
  - destruct (Rlt_dec m 100); [| lra].
    exists (Display.round m). split; [reflexivity |].
    pose proof (round_bounds m) as [Hlo Hhi].
    split; [apply Rabs_le; lra |].
    split; [apply round_ge; simpl; lra | apply round_le; simpl; lra].
  - destruct (Rlt_dec m 100); [lra |]. destruct (Rlt_dec m 1000); [| lra].
    exists (Display.round (m / 10)). split; [reflexivity |].
    pose proof (round_bounds (m / 10)) as [Hlo Hhi].
    split; [rewrite mult_IZR; simpl; apply Rabs_le; lra |].
    assert ((10 <= Display.round (m / 10))%Z)
      by (apply round_ge; simpl; lra).
    assert ((Display.round (m / 10) <= 100)%Z)
      by (apply round_le; simpl; lra).
    lia.
  - destruct (Rlt_dec m 100); [lra |]. destruct (Rlt_dec m 1000); [lra |].
    destruct (Rlt_dec m 10000); [| lra].
    exists (Display.round (10 * (m / 1000))). split; [reflexivity |].
    pose proof (round_bounds (10 * (m / 1000))) as [Hlo Hhi].
    split; [apply Rabs_le; lra |].
    split;
      [| pose proof (Z.mod_pos_bound (Display.round (10 * (m / 1000))) 10);
         lia].
    split; [apply round_ge; simpl; lra | apply round_le; simpl; lra].
  - destruct (Rlt_dec m 100); [lra |]. destruct (Rlt_dec m 1000); [lra |].
    destruct (Rlt_dec m 10000); [lra |].
    exists (Display.round (m / 1000)). split; [reflexivity |].
    pose proof (round_bounds (m / 1000)) as [Hlo Hhi].
    split; [apply Rabs_le; lra |].
    apply round_ge; simpl; lra.
Qed.

Lemma formatDistance_accuracy_witness :
  0 <= 50 /\ 50 < 100
  /\ exists n : Z,
       Display.formatDistance 50 = (Display.showInt n ++ "m away")%string
       /\ Rabs (IZR n - 50) <= / 2.
Proof.
  assert (H0 : 0 <= 50) by lra. assert (H1 : 50 < 100) by lra.
  split; [exact H0 |]. split; [exact H1 |].
  destruct (proj1 (formatDistance_accuracy 50 H0) H1) as [n [Hs [Ha _]]].
  exists n. split; assumption.
Defined.

Lemma le_div (a b c : R) : 0 < b -> c * b <= a -> c <= a / b.
Proof.
  intros Hb H. apply Rmult_le_reg_r with (r := b); [exact Hb |].
  replace (a / b * b) with a by (field; lra). exact H.
Qed.

Lemma div_le (a b c : R) : 0 < b -> a <= c * b -> a / b <= c.
Proof.
  intros Hb H. apply Rmult_le_reg_r with (r := b); [exact Hb |].
  replace (a / b * b) with a by (field; lra). exact H.
Qed.

(** X12. The thumbnail canvas of [compressImage] fits the limit and is never
    larger than the image: for an image of at least 1 by 1 pixels and a
    limit of at least 1, both sides lie between 1 and the limit and do not
    exceed the image's; an image within the limit keeps its size; and the
    longer side of an image beyond the limit becomes the limit exactly. *)
Theorem canvasSize_fits :
  forall width height maxDim : Z,
    (1 <= width)%Z -> (1 <= height)%Z -> (1 <= maxDim)%Z ->
    let size := Display.canvasSize width height maxDim in
    (1 <= fst size <= Z.min maxDim width)%Z
    /\ (1 <= snd size <= Z.min maxDim height)%Z
    /\ ((width <= maxDim)%Z -> (height <= maxDim)%Z ->
        size = (width, height))
    /\ ((maxDim < width)%Z -> (height <= width)%Z -> fst size = maxDim)
    /\ ((maxDim < height)%Z -> (width <= height)%Z -> snd size = maxDim).
Proof.
  intros w h m Hw Hh Hm size. subst size. unfold Display.canvasSize.
  cbn [fst snd].
  assert (Hwr : 1 <= IZR w) by (apply IZR_le in Hw; exact Hw).
  assert (Hhr : 1 <= IZR h) by (apply IZR_le in Hh; exact Hh).
  assert (Hmr : 1 <= IZR m) by (apply IZR_le in Hm; exact Hm).
  set (scale := Rmin (Rmin (IZR m / IZR w) (IZR m / IZR h)) 1).
  assert (Hs1 : scale <= 1) by apply Rmin_r.
  assert (Hsw : scale <= IZR m / IZR w).
  { unfold scale. etransitivity; [apply Rmin_l | apply Rmin_l]. }
  assert (Hsh : scale <= IZR m / IZR h).
  { unfold scale. etransitivity; [apply Rmin_l | apply Rmin_r]. }
  assert (Hs0 : 0 < scale).
  { unfold scale. repeat apply Rmin_glb_lt; try lra;
      apply Rdiv_lt_0_compat; lra. }
  assert (Hww : IZR w * scale <= IZR m).
  { apply Rmult_le_compat_l with (r := IZR w) in Hsw; [| lra].
    replace (IZR w * (IZR m / IZR w)) with (IZR m) in Hsw by (field; lra).
    exact Hsw. }
  assert (Hhh : IZR h * scale <= IZR m).
  { apply Rmult_le_compat_l with (r := IZR h) in Hsh; [| lra].
    replace (IZR h * (IZR m / IZR h)) with (IZR m) in Hsh by (field; lra).
    exact Hsh. }
  assert (Hw1 : IZR w * scale <= IZR w) by nra.
  assert (Hh1 : IZR h * scale <= IZR h) by nra.
  pose proof (round_le _ _ Hww). pose proof (round_le _ _ Hhh).
  pose proof (round_le _ _ Hw1). pose proof (round_le _ _ Hh1).
  split; [lia |]. split; [lia |].
  split; [| split].
  - intros Hwm Hhm.
    assert (Hscale : scale = 1).
    { apply IZR_le in Hwm, Hhm. unfold scale.
      rewrite (Rmin_right _ 1); [reflexivity |].
      apply Rmin_glb; apply le_div; lra. }
    rewrite Hscale, !Rmult_1_r, !round_IZR. f_equal; lia.
  - intros Hmw Hhw.
    assert (Hscale : scale = IZR m / IZR w).
    { apply IZR_lt in Hmw. apply IZR_le in Hhw. unfold scale.
      rewrite (Rmin_left (IZR m / IZR w)).
      - apply Rmin_left. apply div_le; lra.
      - apply le_div; [lra |].
        replace (IZR m / IZR w * IZR h) with (IZR m * (IZR h / IZR w))
          by (field; lra).
        assert (IZR h / IZR w <= 1) by (apply div_le; lra).
        nra. }
    rewrite Hscale.
    replace (IZR w * (IZR m / IZR w)) with (IZR m) by (field; lra).
    rewrite round_IZR. lia.
  - intros Hmh Hwh.
    assert (Hscale : scale = IZR m / IZR h).
    { apply IZR_lt in Hmh. apply IZR_le in Hwh. unfold scale.
      rewrite (Rmin_right (IZR m / IZR w)).
      - apply Rmin_left. apply div_le; lra.
      - apply le_div; [lra |].
        replace (IZR m / IZR h * IZR w) with (IZR m * (IZR w / IZR h))
          by (field; lra).
        assert (IZR w / IZR h <= 1) by (apply div_le; lra).
        nra. }
    rewrite Hscale.
    replace (IZR h * (IZR m / IZR h)) with (IZR m) by (field; lra).
    rewrite round_IZR. lia.
Qed.

Lemma canvasSize_fits_witness :
  (1 <= 4000)%Z /\ (1 <= 3000)%Z /\ (1 <= 150)%Z
  /\ fst (Display.canvasSize 4000 3000 150) = 150%Z
  /\ (1 <= snd (Display.canvasSize 4000 3000 150) <= 150)%Z.
Proof.
  assert (Hw : (1 <= 4000)%Z) by lia. assert (Hh : (1 <= 3000)%Z) by lia.
  assert (Hm : (1 <= 150)%Z) by lia.
  split; [exact Hw |]. split; [exact Hh |]. split; [exact Hm |].
  destruct (canvasSize_fits 4000 3000 150 Hw Hh Hm)
    as [_ [Hsnd [_ [Hfst _]]]].
  split; [apply Hfst; lia | lia].
Defined.

(** ** Username variant: avatar colour *)

Section AvatarColor.
Import Avatar.
Local Open Scope Z_scope.

Example hashOf_ab : hashOf (codeUnits "ab") = 3105.
Proof. reflexivity. Qed.

Example avatarColor_ab : avatarColor (codeUnits "ab") = Some "#2B7A5F"%string.
Proof. reflexivity. Qed.

Lemma toInt32_range (z : Z) : - 2 ^ 31 <= toInt32 z < 2 ^ 31.
Proof.
  unfold toInt32. pose proof (Z.mod_pos_bound (z + 2 ^ 31) (2 ^ 32)). lia.
Qed.

Lemma toInt32_mod (z : Z) : toInt32 z mod 2 ^ 32 = z mod 2 ^ 32.
Proof.
  unfold toInt32. rewrite Zminus_mod_idemp_l. f_equal. lia.
Qed.

Lemma step_mod (h1 h2 c : Z) :
  h1 mod 2 ^ 32 = h2 mod 2 ^ 32 ->
  step h1 c mod 2 ^ 32 = (31 * h2 + c) mod 2 ^ 32.
Proof.
  intro H. unfold step, shiftLeft5. rewrite Z.shiftl_mul_pow2 by lia.
  rewrite Z.add_mod, Zminus_mod, toInt32_mod by lia.
  rewrite (Z.mul_mod h1), H, <- (Z.mul_mod h2) by lia.
  rewrite <- Zminus_mod, <- Z.add_mod by lia.
  f_equal. lia.
Qed.

Lemma fold_step_mod (name : JSString) (h1 h2 : Z) :
  h1 mod 2 ^ 32 = h2 mod 2 ^ 32 ->
  fold_left step name h1 mod 2 ^ 32
  = fold_left (fun h c => 31 * h + c) name h2 mod 2 ^ 32.
Proof.
  revert h1 h2. induction name as [|c name IH]; intros h1 h2 H; simpl.
  - exact H.
  - apply IH. now apply step_mod.
Qed.

Lemma fold_step_bound (name : JSString) (h : Z) :
  Forall (fun c => 0 <= c < 65536) name ->
  Z.abs (fold_left step name h)
  <= Z.abs h + Z.of_nat (List.length name) * (2 ^ 31 + 65535).
Proof.
  intro Hname. revert h.
  induction Hname as [|c name Hc Hname IH]; intro h.
  - simpl. lia.
  - cbn [fold_left List.length]. specialize (IH (step h c)).
    assert (Z.abs (step h c) <= Z.abs h + (2 ^ 31 + 65535)).
    { unfold step, shiftLeft5.
      pose proof (toInt32_range (Z.shiftl h 5)). lia. }
    lia.
Qed.

End AvatarColor.

(** X13. [avatarColor] gives every name, also the empty one, one of the
    eight colours of its palette; it is never undefined. *)
Theorem avatarColor_in_palette :
  forall name : Avatar.JSString,
    exists c : string,
      Avatar.avatarColor name = Some c /\ In c Avatar.colors.
Proof.
  intro name. unfold Avatar.avatarColor.
  set (i := (Z.abs (Avatar.hashOf name)
             mod Z.of_nat (List.length Avatar.colors))%Z).
  assert (Hi : (0 <= i < 8)%Z).
  { unfold i. apply Z.mod_pos_bound. simpl. lia. }
  assert (Hcases : i = 0%Z \/ i = 1%Z \/ i = 2%Z \/ i = 3%Z \/ i = 4%Z
                   \/ i = 5%Z \/ i = 6%Z \/ i = 7%Z) by lia.
  clearbody i.
  repeat destruct Hcases as [-> | Hcases]; try subst i;
    (eexists; split; [reflexivity | simpl; tauto]).
Qed.

(** X14. The hash behind the avatar colour is the polynomial hash
    [c0 * 31^(n-1) + ... + c(n-1)] of the name's code units modulo [2^32],
    and for code units below [2^16] its absolute value is at most
    [(2^31 + 65535)] times the length of the name, which is below the
    [2^53] up to which numbers are exact for any name of up to four
    million characters. *)
Theorem avatar_hash_polynomial :
  forall name : Avatar.JSString,
    (Avatar.hashOf name mod 2 ^ 32 = Avatar.poly31 name mod 2 ^ 32)%Z
    /\ (Forall (fun c => 0 <= c < 65536)%Z name ->
        (Z.abs (Avatar.hashOf name)
         <= Z.of_nat (List.length name) * (2 ^ 31 + 65535))%Z
        /\ ((Z.of_nat (List.length name) <= 4000000)%Z ->
            (Z.abs (Avatar.hashOf name) < 2 ^ 53)%Z)).
Proof.
  intro name. split.
  - apply fold_step_mod. reflexivity.
  - intro Hname.
    pose proof (fold_step_bound name 0 Hname) as Hb.
    fold (Avatar.hashOf name) in Hb.
    split; [lia |]. intro Hlen. lia.
Qed.

Lemma avatar_hash_polynomial_witness :
  Forall (fun c => 0 <= c < 65536)%Z (Avatar.codeUnits "ab")
  /\ (Z.abs (Avatar.hashOf (Avatar.codeUnits "ab"))
      <= 2 * (2 ^ 31 + 65535))%Z.
Proof.
  assert (H : Forall (fun c => 0 <= c < 65536)%Z (Avatar.codeUnits "ab")).
  { repeat constructor; simpl; lia. }
  split; [exact H |].
  exact (proj1 (proj2 (avatar_hash_polynomial (Avatar.codeUnits "ab")) H)).
Defined.

(** ** Username variant: login *)

Section LoginScreen.
Import Login.

Example handleSubmit_padded :
  handleSubmit (Avatar.codeUnits "  ada_99 ")
  = LoggedIn (Avatar.codeUnits "ada_99").
Proof. reflexivity. Qed.

Example handleSubmit_space_inside :
  handleSubmit (Avatar.codeUnits "ada lovelace")
  = SetError "Only letters, numbers, and underscores allowed.".
Proof. reflexivity. Qed.

Lemma wordChar_not_whiteSpace (c : Z) :
  isWordChar c = true -> isWhiteSpace c = false.
Proof.
  unfold isWordChar, isWhiteSpace, whiteSpace. intro H.
  assert (Hc : (48 <= c <= 122)%Z).
  { rewrite !orb_true_iff, !andb_true_iff, !Z.leb_le, Z.eqb_eq in H. lia. }
  cbn [existsb].
  repeat match goal with
         | |- context [(c =? ?k)%Z] =>
             rewrite (proj2 (Z.eqb_neq c k)) by lia
         end.
  reflexivity.
Qed.

Lemma trimStart_head (c : Z) (s : Avatar.JSString) :
  isWhiteSpace c = false -> trimStart (c :: s) = c :: s.
Proof. intro H. simpl. now rewrite H. Qed.

Lemma trim_words (s : Avatar.JSString) :
  forallb isWordChar s = true -> trim s = s.
Proof.
  intro H. rewrite forallb_forall in H.
  assert (Hstart : forall t, (forall c, In c t -> isWordChar c = true) ->
                             trimStart t = t).
  { intros [|c t] Ht; [reflexivity |].
    apply trimStart_head, wordChar_not_whiteSpace, Ht. now left. }
  unfold trim, trimEnd. rewrite (Hstart s H), Hstart.
  - apply rev_involutive.
  - intros c Hc. apply H. now apply in_rev.
Qed.

Lemma trimStart_spaces (pre s : Avatar.JSString) :
  forallb isWhiteSpace pre = true -> trimStart (pre ++ s) = trimStart s.
Proof.
  induction pre as [|c pre IH]; simpl; [reflexivity |].
  intro H. apply andb_prop in H. destruct H as [Hc Hpre].
  rewrite Hc. now apply IH.
Qed.

Lemma trimEnd_spaces (s post : Avatar.JSString) :
  forallb isWhiteSpace post = true -> trimEnd (s ++ post) = trimEnd s.
Proof.
  intro H. unfold trimEnd. rewrite rev_app_distr, trimStart_spaces;
    [reflexivity |].
  rewrite forallb_forall in *. intros c Hc. apply H. now apply in_rev.
Qed.

Lemma trim_spaces (pre s post : Avatar.JSString) :
  forallb isWhiteSpace pre = true -> forallb isWhiteSpace post = true ->
  trim (pre ++ s ++ post) = trim s.
Proof.
  intros Hpre Hpost. unfold trim. rewrite trimStart_spaces by exact Hpre.
  induction s as [|c s IH].
  - simpl. rewrite <- (app_nil_r post), trimStart_spaces by exact Hpost.
    reflexivity.
  - simpl. destruct (isWhiteSpace c); [exact IH |].
    exact (trimEnd_spaces (c :: s) post Hpost).
Qed.

Lemma handleSubmit_LoggedIn (username user : Avatar.JSString) :
  handleSubmit username = LoggedIn user ->
  user = trim username
  /\ (2 <= List.length user <= 20)%nat
  /\ forallb isWordChar user = true.
Proof.
  unfold handleSubmit. destruct (trim username) as [|c t] eqn:E;
    [discriminate |].
  destruct (List.length (c :: t) <? 2)%nat eqn:E2; [discriminate |].
  destruct (20 <? List.length (c :: t))%nat eqn:E20; [discriminate |].
  destruct (forallb isWordChar (c :: t)) eqn:Ew; [| discriminate].
  intro H. injection H as <-.
  apply Nat.ltb_ge in E2, E20. repeat split; assumption.
Qed.

End LoginScreen.

(** X15. A username the login screen accepts is the input without its
    surrounding white space, has 2 to 20 characters, all of them letters,
    digits or underscores; and submitting an accepted name again accepts it
    unchanged. *)
Theorem handleSubmit_accepts_valid :
  forall username user : Avatar.JSString,
    Login.handleSubmit username = Login.LoggedIn user ->
    user = Login.trim username
    /\ (2 <= List.length user <= 20)%nat
    /\ Forall (fun c => Login.isWordChar c = true) user
    /\ Login.handleSubmit user = Login.LoggedIn user.
Proof.
  intros username user H.
  destruct (handleSubmit_LoggedIn username user H) as [Htrim [Hlen Hw]].
  split; [exact Htrim |]. split; [exact Hlen |].
  split; [apply Forall_forall; now apply forallb_forall |].
  unfold Login.handleSubmit. rewrite (trim_words user Hw).
  destruct user as [|c t]; [simpl in Hlen; lia |].
  destruct Hlen as [H2 H20].
  apply Nat.ltb_ge in H2, H20. now rewrite H2, H20, Hw.
Qed.

Lemma handleSubmit_accepts_valid_witness :
  Login.handleSubmit (Avatar.codeUnits " ada_99")
  = Login.LoggedIn (Avatar.codeUnits "ada_99")
  /\ Login.handleSubmit (Avatar.codeUnits "ada_99")
     = Login.LoggedIn (Avatar.codeUnits "ada_99").
Proof.
  assert (H : Login.handleSubmit (Avatar.codeUnits " ada_99")
              = Login.LoggedIn (Avatar.codeUnits "ada_99")) by reflexivity.
  split; [exact H |].
  exact (proj2 (proj2 (proj2 (handleSubmit_accepts_valid _ _ H)))).
Defined.

(** X16. White space around the input does not change what the login
    screen does with it. *)
Theorem handleSubmit_ignores_padding :
  forall pre username post : Avatar.JSString,
    Forall (fun c => Login.isWhiteSpace c = true) pre ->
    Forall (fun c => Login.isWhiteSpace c = true) post ->
    Login.handleSubmit (pre ++ username ++ post)
    = Login.handleSubmit username.
Proof.
  intros pre username post Hpre Hpost.
  unfold Login.handleSubmit. rewrite trim_spaces; [reflexivity | |];
    apply forallb_forall; now apply Forall_forall.
Qed.

Lemma handleSubmit_ignores_padding_witness :
  Login.handleSubmit (Avatar.codeUnits " " ++ Avatar.codeUnits "bo"
                      ++ Avatar.codeUnits "  ")
  = Login.handleSubmit (Avatar.codeUnits "bo").
Proof.
  apply handleSubmit_ignores_padding;
    repeat constructor.
Defined.

(** ** Google sign-in variant: points *)

Section PointsSystem.
Import Points.

Lemma getRarity_some (i : option string) :
  exists t : Rarity.RarityTier,
    Rarity.getRarity i = Some t /\ In t Rarity.RARITIES
    /\ 10 <= Rarity.points t <= 250.
Proof.
  destruct i as [i |]; unfold Rarity.getRarity, Rarity.RARITIES;
    cbn [find Rarity.sameId Rarity.id nth_error].
  - repeat match goal with
           | |- context [String.eqb ?s i] => destruct (String.eqb s i)
           end;
      eexists; (split; [reflexivity |]); cbn [In Rarity.points];
      (split; [tauto | lra]).
  - eexists. split; [reflexivity |]. cbn [In Rarity.points].
    split; [tauto | lra].
Qed.

Lemma has_true (ids : list string) (q : string) :
  has ids q = true <-> In q ids.
Proof.
  unfold has. rewrite existsb_exists. split.
  - intros [x [Hin Heq]]. apply String.eqb_eq in Heq. now subst.
  - intro H. exists q. split; [exact H | apply String.eqb_refl].
Qed.

Lemma has_false (ids : list string) (q : string) :
  has ids q = false <-> ~ In q ids.
Proof.
  rewrite <- has_true. destruct (has ids q); split; intro H;
    try discriminate; try reflexivity.
  - exfalso. now apply H.
Qed.

Lemma awardPoints_answered (s : State) (q : string) (r : option string) :
  has (answeredIds s) q = true -> awardPoints s q r = s.
Proof. unfold awardPoints. now intros ->. Qed.

Lemma awardPoints_new (s : State) (q : string) (r : option string) :
  has (answeredIds s) q = false ->
  exists t : Rarity.RarityTier,
    In t Rarity.RARITIES /\ Rarity.getRarity r = Some t
    /\ awardPoints s q r
       = {| userPoints := userPoints s + Rarity.points t;
            answeredIds := answeredIds s ++ [q] |}
    /\ 10 <= Rarity.points t <= 250.
Proof.
  intro H. destruct (getRarity_some r) as [t [Hget [Hin Hpts]]].
  exists t. repeat split; try assumption; try apply Hpts.
  unfold awardPoints, add. now rewrite H, Hget.
Qed.

Lemma awardPoints_step (s : State) (q : string) (r : option string) :
  NoDup (answeredIds s) ->
  let s' := awardPoints s q r in
  let k := INR (List.length (answeredIds s') - List.length (answeredIds s)) in
  NoDup (answeredIds s')
  /\ (List.length (answeredIds s) <= List.length (answeredIds s'))%nat
  /\ 10 * k <= userPoints s' - userPoints s <= 250 * k.
Proof.
  intros Hnd s' k. subst s' k.
  destruct (has (answeredIds s) q) eqn:E.
  - rewrite (awardPoints_answered s q r E). rewrite Nat.sub_diag. simpl.
    repeat split; [assumption | lia | lra | lra].
  - destruct (awardPoints_new s q r E) as [t [_ [_ [-> Hpts]]]].
    cbn [answeredIds userPoints]. rewrite length_app. cbn [List.length].
    replace (List.length (answeredIds s) + 1 - List.length (answeredIds s))%nat
      with 1%nat by lia.
    simpl. repeat split; try lia; try lra.
    apply NoDup_app; [assumption | repeat constructor; auto |].
    intros x Hx [<- | []]. apply has_false in E. contradiction.
Qed.

End PointsSystem.

(** X17. A question gives points at most once.  Answering a question not
    answered before adds the points of its rarity tier, or those of
    ["common"] when the rarity is unknown or missing, and records the
    question; answering it again changes nothing, whatever rarity is
    passed. *)
Theorem awardPoints_once :
  forall (s : Points.State) (questionId : string)
         (rarity again : option string),
    let s' := Points.awardPoints s questionId rarity in
    (Points.has (Points.answeredIds s) questionId = true -> s' = s)
    /\ (Points.has (Points.answeredIds s) questionId = false ->
        exists t : Rarity.RarityTier,
          In t Rarity.RARITIES
          /\ Rarity.getRarity rarity = Some t
          /\ Points.userPoints s' = Points.userPoints s + Rarity.points t
          /\ Points.answeredIds s' = Points.answeredIds s ++ [questionId])
    /\ Points.awardPoints s' questionId again = s'.
Proof.
  intros s q r again s'. subst s'.
  split; [apply awardPoints_answered |]. split.
  - intro H. destruct (awardPoints_new s q r H) as [t [Hin [Hget [-> _]]]].
    exists t. repeat split; assumption.
  - apply awardPoints_answered.
    destruct (Points.has (Points.answeredIds s) q) eqn:E.
    + now rewrite (awardPoints_answered s q r E).
    + destruct (awardPoints_new s q r E) as [t [_ [_ [-> _]]]].
      cbn [Points.answeredIds]. apply has_true, in_or_app. right. now left.
Qed.

Lemma awardPoints_once_witness :
  let s := {| Points.userPoints := 0; Points.answeredIds := [] |} in
  Points.has (Points.answeredIds s) "q1" = false
  /\ exists t : Rarity.RarityTier,
       Rarity.getRarity (Some "epic"%string) = Some t
       /\ Points.userPoints
            (Points.awardPoints s "q1" (Some "epic"%string))
          = 0 + Rarity.points t.
Proof.
  cbv zeta.
  assert (H : Points.has
                (Points.answeredIds
                   {| Points.userPoints := 0; Points.answeredIds := [] |})
                "q1" = false) by reflexivity.
  split; [exact H |].
  destruct (proj1 (proj2 (awardPoints_once
                            {| Points.userPoints := 0;
                               Points.answeredIds := [] |}
                            "q1" (Some "epic"%string) None)) H)
    as [t [_ [Hget [Hpts _]]]].
  exists t. split; assumption.
Defined.

(** X18. Over any run of awards, starting from a set of answered questions
    without repetition: the set stays without repetition and never
    shrinks, and the points gained lie between 10 and 250 times the number
    of questions newly answered; in particular points never decrease. *)
Theorem awardAll_points_bounds :
  forall (calls : list (string * option string)) (s : Points.State),
    NoDup (Points.answeredIds s) ->
    let s' := Points.awardAll s calls in
    let k := INR (List.length (Points.answeredIds s')
                  - List.length (Points.answeredIds s)) in
    NoDup (Points.answeredIds s')
    /\ (List.length (Points.answeredIds s)
        <= List.length (Points.answeredIds s'))%nat
    /\ 10 * k <= Points.userPoints s' - Points.userPoints s <= 250 * k
    /\ Points.userPoints s <= Points.userPoints s'.
Proof.
  induction calls as [|[q r] calls IH]; intros s Hnd s' k; subst s' k.
  - unfold Points.awardAll. cbn [fold_left]. rewrite Nat.sub_diag. simpl.
    repeat split; [assumption | lia | lra | lra | lra].
  - unfold Points.awardAll. cbn [fold_left fst snd].
    fold (Points.awardAll (Points.awardPoints s q r) calls).
    destruct (awardPoints_step s q r Hnd) as [Hnd1 [Hlen1 Hpts1]].
    destruct (IH (Points.awardPoints s q r) Hnd1)
      as [Hnd2 [Hlen2 [Hpts2 _]]].
    set (s1 := Points.awardPoints s q r) in *.
    set (s2 := Points.awardAll s1 calls) in *.
    assert (Hk : INR (List.length (Points.answeredIds s2)
                      - List.length (Points.answeredIds s))
                 = INR (List.length (Points.answeredIds s2)
                        - List.length (Points.answeredIds s1))
                   + INR (List.length (Points.answeredIds s1)
                          - List.length (Points.answeredIds s))).
    { rewrite <- plus_INR. f_equal. lia. }
    rewrite Hk.
    assert (0 <= INR (List.length (Points.answeredIds s2)
                      - List.length (Points.answeredIds s1)))
      by apply pos_INR.
    assert (0 <= INR (List.length (Points.answeredIds s1)
                      - List.length (Points.answeredIds s)))
      by apply pos_INR.
    repeat split; try assumption; try lia; lra.
Qed.

Lemma awardAll_points_bounds_witness :
  let s := {| Points.userPoints := 0; Points.answeredIds := [] |} in
  let calls := [("q1", Some "rare"); ("q1", Some "legendary");
                ("q2", None)]%string in
  NoDup (Points.answeredIds s)
  /\ Points.userPoints s <= Points.userPoints (Points.awardAll s calls).
Proof.
  cbv zeta.
  assert (H : NoDup (Points.answeredIds
                       {| Points.userPoints := 0;
                          Points.answeredIds := [] |})) by constructor.
  split; [exact H |].
  exact (proj2 (proj2 (proj2 (awardAll_points_bounds _ _ H)))).
Defined.

(** X19. The rarity the roller gives a question is always found again by
    the lookup, which never needs its fallback for it; and a higher draw
    never gives a tier with fewer points: over the draws in [[0, 1)] the
    points of the rolled tier are non-decreasing. *)
Theorem rolled_rarity_found :
  (forall random : R,
      exists t : Rarity.RarityTier,
        In t Rarity.RARITIES
        /\ find (fun r => Rarity.sameId r (Some (Rarity.rollRarity random)))
             Rarity.RARITIES = Some t
        /\ Rarity.getRarity (Some (Rarity.rollRarity random)) = Some t
        /\ Rarity.id t = Rarity.rollRarity random)
  /\ (forall r1 r2 : R,
         0 <= r1 -> r1 <= r2 -> r2 < 1 ->
         exists p1 p2 : R,
           Points.rolledPoints r1 = Some p1
           /\ Points.rolledPoints r2 = Some p2
           /\ p1 <= p2).
Proof.
  split.
  - intro random. unfold Rarity.getRarity, Rarity.rollRarity.
    rewrite totalWeight_value. simpl Rarity.walk.
    repeat case_leb;
      (eexists; split; [| split; [reflexivity | split; reflexivity]];
       simpl; tauto).
  - intros r1 r2 H0 H12 H1. unfold Points.rolledPoints, Rarity.rollRarity.
    rewrite totalWeight_value. simpl Rarity.walk.
    repeat case_leb; try (exfalso; lra);
      (eexists; eexists; split; [reflexivity | split; [reflexivity |]];
       simpl; lra).
Qed.

Lemma rolled_rarity_found_witness :
  0 <= / 4 /\ / 4 <= 19 / 20 /\ 19 / 20 < 1
  /\ exists p1 p2 : R,
       Points.rolledPoints (/ 4) = Some p1
       /\ Points.rolledPoints (19 / 20) = Some p2
       /\ p1 <= p2.
Proof.
  assert (H0 : 0 <= / 4) by lra.
  assert (H12 : / 4 <= 19 / 20) by lra.
  assert (H1 : 19 / 20 < 1) by lra.
  split; [exact H0 |]. split; [exact H12 |]. split; [exact H1 |].
  exact (proj2 rolled_rarity_found (/ 4) (19 / 20) H0 H12 H1).
Defined.

(** ** The newest entry at a crowded place *)

Section SortLast.
Context {A : Type}.
Variable comparefn : A -> A -> option R.
Variable key : A -> R.
Variable ok : A -> Prop.
Hypothesis comparefn_key :
  forall a b, ok a -> ok b -> JS.sortCompare comparefn a b = key a - key b.

Let le_key (a b : A) : Prop := key a <= key b.
Let upTo (k : R) (a : A) : bool := JS.leb (key a) k.
Let beyond (k : R) (a : A) : bool := negb (JS.leb (key a) k).

Lemma filter_sorted (p : A -> bool) (l : list A) :
  StronglySorted le_key l -> StronglySorted le_key (filter p l).
Proof.
  induction 1 as [|x l Hs IH Hx]; simpl; [constructor |].
  destruct (p x); [| exact IH].
  constructor; [exact IH |].
  rewrite Forall_forall in Hx |- *. intros y Hy.
  apply filter_In in Hy. now apply Hx.
Qed.

Lemma sorted_app (l1 l2 : list A) :
  StronglySorted le_key l1 -> StronglySorted le_key l2 ->
  (forall a b, In a l1 -> In b l2 -> le_key a b) ->
  StronglySorted le_key (l1 ++ l2).
Proof.
  intros H1 H2 H12. induction H1 as [|x l1 Hs IH Hx]; simpl; [exact H2 |].
  constructor.
  - apply IH. intros a b Ha Hb. apply H12; [now right | exact Hb].
  - apply Forall_app. split; [exact Hx |].
    apply Forall_forall. intros b Hb. apply H12; [now left | exact Hb].
Qed.

Lemma sorted_partition (k : R) (l : list A) :
  StronglySorted le_key l -> l = filter (upTo k) l ++ filter (beyond k) l.
Proof.
  induction 1 as [|x l Hs IH Hx]; [reflexivity |].
  cbn [filter]. unfold upTo at 1, beyond at 1.
  destruct (JS.leb (key x) k) eqn:E; cbn [negb].
  - cbn [app]. now rewrite <- IH.
  - apply leb_gt in E.
    rewrite (filter_none (upTo k) l), (filter_all (beyond k) l);
      [reflexivity | |];
      (eapply Forall_impl; [| exact Hx]); intros y Hy;
      unfold upTo, beyond, le_key in *;
      assert (Hky : JS.leb (key y) k = false) by (apply leb_gt; lra);
      now rewrite Hky.
Qed.

Lemma filter_insert_length (p : A -> bool) (x : A) (l : list A) :
  List.length (filter p (JS.insert comparefn x l))
  = List.length (filter p (x :: l)).
Proof.
  induction l as [|z l IH]; [reflexivity |].
  cbn [JS.insert]. destruct (JS.leb _ 0); [reflexivity |].
  cbn [filter] in *. destruct (p z), (p x); cbn [List.length] in *; lia.
Qed.

Lemma filter_sort_length (p : A -> bool) (l : list A) :
  List.length (filter p (JS.sort comparefn l)) = List.length (filter p l).
Proof.
  induction l as [|x l IH]; [reflexivity |].
  cbn [JS.sort]. rewrite filter_insert_length. cbn [filter].
  destruct (p x); cbn [List.length]; now rewrite IH.
Qed.

(** An element appended to the array goes behind the elements that are not
    farther than it. *)
Lemma sort_last (l : list A) (x : A) :
  Forall ok l -> ok x ->
  JS.sort comparefn (l ++ [x])
  = filter (upTo (key x)) (JS.sort comparefn l)
    ++ x :: filter (beyond (key x)) (JS.sort comparefn l).
Proof.
  intros Hl Hx.
  pose proof (sort_sorted comparefn key ok comparefn_key l Hl) as Hs.
  apply (sorted_ties_unique key).
  - apply (sort_sorted comparefn key ok comparefn_key).
    apply Forall_app. split; [exact Hl | now constructor].
  - apply sorted_app.
    + now apply filter_sorted.
    + constructor; [now apply filter_sorted |].
      apply Forall_forall. intros b Hb. apply filter_In in Hb.
      destruct Hb as [_ Hb]. unfold beyond in Hb.
      destruct (JS.leb (key b) (key x)) eqn:E; [discriminate |].
      apply leb_gt in E. unfold le_key. lra.
    + intros a b Ha Hb. apply filter_In in Ha. destruct Ha as [_ Ha].
      unfold upTo in Ha. apply leb_le in Ha.
      destruct Hb as [<- | Hb]; [exact Ha |].
      apply filter_In in Hb. destruct Hb as [_ Hb]. unfold beyond in Hb.
      destruct (JS.leb (key b) (key x)) eqn:E; [discriminate |].
      apply leb_gt in E. unfold le_key. lra.
  - intro d.
    rewrite (filter_tie_sort comparefn key ok comparefn_key)
      by (apply Forall_app; split; [exact Hl | now constructor]).
    rewrite !filter_app. cbn [filter].
    rewrite (filter_filter_const _ (upTo (key x)) (JS.leb d (key x))),
            (filter_filter_const _ (beyond (key x))
               (negb (JS.leb d (key x)))).
    + rewrite (filter_tie_sort comparefn key ok comparefn_key) by exact Hl.
      destruct (JS.leb d (key x)) eqn:E; cbn [negb].
      * destruct (Props.eqb (key x) d); now rewrite ?app_nil_r.
      * apply leb_gt in E.
        destruct (Props.eqb (key x) d) eqn:Ex;
          [apply eqb_eq in Ex; lra |].
        now rewrite app_nil_r.
    + intros a Ha. apply eqb_eq in Ha. unfold beyond. now rewrite Ha.
    + intros a Ha. apply eqb_eq in Ha. unfold upTo. now rewrite Ha.
Qed.

Lemma firstn_sort_last (n : nat) (l : list A) (x : A) :
  Forall ok l -> ok x ->
  (n <= List.length (filter (upTo (key x)) l))%nat ->
  firstn n (JS.sort comparefn (l ++ [x])) = firstn n (JS.sort comparefn l).
Proof.
  intros Hl Hx Hn.
  pose proof (sort_sorted comparefn key ok comparefn_key l Hl) as Hs.
  rewrite sort_last by assumption.
  rewrite (sorted_partition (key x) (JS.sort comparefn l) Hs) at 3.
  rewrite <- (filter_sort_length (upTo (key x)) l) in Hn.
  rewrite !firstn_app.
  replace (n - List.length (filter (upTo (key x)) (JS.sort comparefn l)))%nat
    with 0%nat by lia.
  reflexivity.
Qed.

End SortLast.

Lemma filter_andb {A : Type} (p q : A -> bool) (l : list A) :
  filter p (filter q l) = filter (fun a => q a && p a) l.
Proof.
  induction l as [|x l IH]; simpl; [reflexivity |].
  destruct (q x); simpl; [destruct (p x) |]; now rewrite IH.
Qed.

(** X20. localStorage variant: the last entry of the index, the newest
    one, is not shown when 20 earlier entries are within the radius and not
    farther from the observer than it: the results are those for the index
    without it.  So a question published at a place where 20 questions
    already are is not found by the filter there. *)
Theorem newest_entry_hidden_when_crowded :
  forall (st : LocalStorage.Storage)
         (earlier : list LocalStorage.IndexEntry)
         (newest : LocalStorage.IndexEntry)
         (userLat userLng radiusMeters : R),
    let dist := fun e =>
      LocalStorage.haversineDistance userLat userLng
        (LocalStorage.lat e) (LocalStorage.lng e) in
    LocalStorage.geoq_index st = Some (earlier ++ [newest]) ->
    (20 <= List.length
             (filter (fun e => JS.leb (dist e) radiusMeters
                               && JS.leb (dist e) (dist newest))
                earlier))%nat ->
    LocalStorage.loadNearbyQuestions st userLat userLng radiusMeters
    = LocalStorage.loadNearbyQuestions
        {| LocalStorage.geoq_index := Some earlier;
           LocalStorage.getItem := LocalStorage.getItem st |}
        userLat userLng radiusMeters.
Proof.
  intros st earlier newest userLat userLng radiusMeters dist Hindex Hcount.
  unfold LocalStorage.loadNearbyQuestions, JS.slice0.
  rewrite Hindex. cbn [LocalStorage.geoq_index LocalStorage.getItem].
  set (score := fun e => LocalStorage.withDistance e (dist e)).
  change (fun e : LocalStorage.IndexEntry =>
            LocalStorage.withDistance e
              (LocalStorage.haversineDistance userLat userLng
                 (LocalStorage.lat e) (LocalStorage.lng e)))
    with score.
  assert (Hcollect : forall l,
             LocalStorage.collect
               {| LocalStorage.geoq_index := Some earlier;
                  LocalStorage.getItem := LocalStorage.getItem st |} l
             = LocalStorage.collect st l).
  { induction l as [|e l IH]; simpl; [reflexivity |]. now rewrite IH. }
  rewrite Hcollect. f_equal.
  rewrite map_app, filter_app. cbn [map filter].
  destruct (LocalStorage.withinRadius radiusMeters (score newest)) eqn:Hw;
    [| now rewrite app_nil_r].
  apply (firstn_sort_last LocalStorage.byDistance dist
           (fun e => LocalStorage.distance e = Some (dist e))).
  - intros a b Ha Hb. unfold JS.sortCompare, LocalStorage.byDistance.
    now rewrite Ha, Hb.
  - apply Forall_forall. intros e He. apply filter_In in He.
    destruct He as [He _]. apply in_map_iff in He.
    destruct He as [e0 [<- _]]. reflexivity.
  - reflexivity.
  - rewrite filter_map_swap, filter_map_swap, length_map, filter_andb.
    exact Hcount.
Qed.

Lemma newest_entry_hidden_when_crowded_witness :
  let st := Props.crowdStorage 21 in
  LocalStorage.loadNearbyQuestions st 0 0 1
  = LocalStorage.loadNearbyQuestions
      {| LocalStorage.geoq_index := Some (repeat (Props.entryAt "q" 0 0) 20);
         LocalStorage.getItem := LocalStorage.getItem st |} 0 0 1.
Proof.
  cbv zeta.
  apply (newest_entry_hidden_when_crowded (Props.crowdStorage 21)
           (repeat (Props.entryAt "q" 0 0) 20) (Props.entryAt "q" 0 0)).
  - reflexivity.
  - rewrite filter_all; [rewrite repeat_length; lia |].
    apply Forall_forall. intros e He. apply repeat_spec in He. subst e.
    cbn [Props.entryAt LocalStorage.lat LocalStorage.lng].
    change (LocalStorage.haversineDistance 0 0 0 0)
      with (GoogleAuth.haversineDistance 0 0 0 0).
    rewrite haversine_same_point.
    apply andb_true_intro. split; apply leb_le; lra.
Defined.

(** ** Narrowing the radius *)

Section SortFilter.
Context {A : Type}.
Variable comparefn : A -> A -> option R.
Variable key : A -> R.
Variable ok : A -> Prop.
Hypothesis comparefn_key :
  forall a b, ok a -> ok b -> JS.sortCompare comparefn a b = key a - key b.

Lemma filter_comm (p q : A -> bool) (l : list A) :
  filter p (filter q l) = filter q (filter p l).
Proof.
  rewrite !filter_andb. apply filter_ext. intro a. apply andb_comm.
Qed.

(** Filtering a sorted array gives the same as sorting the filtered one. *)
Lemma filter_sort_comm (p : A -> bool) (l : list A) :
  Forall ok l ->
  filter p (JS.sort comparefn l) = JS.sort comparefn (filter p l).
Proof.
  intro Hl.
  assert (Hfl : Forall ok (filter p l)).
  { rewrite Forall_forall in *. intros a Ha. apply filter_In in Ha.
    now apply Hl. }
  apply (sorted_ties_unique key).
  - apply filter_sorted. now apply (sort_sorted comparefn key ok).
  - now apply (sort_sorted comparefn key ok).
  - intro d.
    rewrite filter_comm,
      (filter_tie_sort comparefn key ok comparefn_key d l Hl),
      (filter_tie_sort comparefn key ok comparefn_key d _ Hfl).
    apply filter_comm.
Qed.

Lemma firstn_filter_upTo (n : nat) (k : R) (l : list A) :
  StronglySorted (fun a b => key a <= key b) l ->
  firstn n (filter (fun a => JS.leb (key a) k) l)
  = filter (fun a => JS.leb (key a) k) (firstn n l).
Proof.
  intro Hs. revert n. induction Hs as [|x l Hs IH Hx]; intro n.
  - cbn [filter]. now rewrite !firstn_nil.
  - destruct n as [|n]; [reflexivity |]. cbn [firstn filter].
    destruct (JS.leb (key x) k) eqn:E.
    + cbn [firstn]. now rewrite IH.
    + apply leb_gt in E.
      assert (Hnone : Forall (fun a => JS.leb (key a) k = false) l).
      { eapply Forall_impl; [| exact Hx]. intros a Ha. apply leb_gt. lra. }
      rewrite (filter_none _ l Hnone).
      rewrite (filter_none _ (firstn n l) (firstn_Forall _ _ _ Hnone)).
      reflexivity.
Qed.

End SortFilter.

(** X21. Narrowing the radius only removes the results beyond the new
    radius: for [r1 <= r2] the result for [r1] is the result for [r2]
    without the items farther than [r1], in the same order. *)
Theorem loadNearbyQuestions_narrow :
  forall (qs : list Doc.Question) (userLat userLng r1 r2 : R),
    r1 <= r2 ->
    GoogleAuth.loadNearbyQuestions qs userLat userLng r1
    = filter (Doc.withinRadius r1)
        (GoogleAuth.loadNearbyQuestions qs userLat userLng r2).
Proof.
  intros qs userLat userLng r1 r2 Hr.
  set (dist := fun q =>
         GoogleAuth.haversineDistance userLat userLng (Doc.lat q) (Doc.lng q)).
  set (scored := fun q => Doc.distance q = Some (dist q)).
  rewrite !loadNearbyQuestions_unfold.
  set (M := map (fun q => Doc.withDistance q
                   (GoogleAuth.haversineDistance userLat userLng
                      (Doc.lat q) (Doc.lng q))) qs).
  set (S2 := JS.sort Doc.byDistance (filter (Doc.withinRadius r2) M)).
  assert (Hkept2 : Forall scored (filter (Doc.withinRadius r2) M))
    by apply kept_scored.
  assert (HS2 : Forall scored S2) by (apply sort_Forall, Hkept2).
  assert (Hsorted : StronglySorted (fun a b => dist a <= dist b) S2).
  { apply (sort_sorted Doc.byDistance dist scored); [| exact Hkept2].
    apply byDistance_dist. }
  assert (Hw : forall l, Forall scored l ->
                 filter (Doc.withinRadius r1) l
                 = filter (fun q => JS.leb (dist q) r1) l).
  { intros l Hl. apply filter_ext_in. intros q Hq.
    rewrite Forall_forall in Hl.
    apply (withinRadius_scored userLat userLng r1 q). exact (Hl q Hq). }
  assert (Hsub : filter (Doc.withinRadius r1) M
                 = filter (Doc.withinRadius r1)
                     (filter (Doc.withinRadius r2) M)).
  { rewrite (filter_filter_const _ _ true); [reflexivity |].
    intros q Hq. unfold Doc.withinRadius in *.
    destruct (Doc.distance q); [| discriminate].
    apply leb_le in Hq. apply leb_le. lra. }
  rewrite Hsub.
  rewrite <- (filter_sort_comm Doc.byDistance dist scored
                (byDistance_dist userLat userLng) _ _ Hkept2).
  fold S2.
  rewrite (Hw S2 HS2), (Hw (firstn 30 S2) (firstn_Forall _ _ _ HS2)).
  now apply firstn_filter_upTo.
Qed.

Lemma loadNearbyQuestions_narrow_witness :
  1000 <= 5000
  /\ GoogleAuth.loadNearbyQuestions (Props.crowd 3) 0 0 1000
     = filter (Doc.withinRadius 1000)
         (GoogleAuth.loadNearbyQuestions (Props.crowd 3) 0 0 5000).
Proof.
  assert (H : 1000 <= 5000) by lra.
  split; [exact H |].
  exact (loadNearbyQuestions_narrow (Props.crowd 3) 0 0 1000 5000 H).
Defined.
